(** * analyse_logarchive: a shallow embedding of the line analyser,
      the report writer and the driver, with the properties of the
      specification proved about the embedding.

    Conventions of the embedding.

    - A Python [str] is a list of characters.  Characters are restricted to
      the code points below 256, one [ascii] each; on that range the
      character classes below are exactly Python's.
    - A Python [int] is a [Z].
    - A Python [float] is an IEEE binary64 value, [spec_float] with
      precision 53 and maximal exponent 1024.
    - A [dict] is an association list in insertion order with unique keys.
    - The operating system (file tree, the [log] tool, the clock, the
      operator at the prompt) is a record of oracles, [World]; a run is
      the list of its events and its return or the exception it raised.
    - [repr] of a float is a parameter of the report writer. *)

From Stdlib Require Import ZArith Ascii String List Floats.SpecFloat.
From Stdlib Require Import DecimalString DecimalZ.
From stdpp Require Import base list strings sorting.

Local Open Scope Z_scope.

(** ** Python strings *)

Abbreviation str := (list ascii).

Definition lit (s : string) : str := list_ascii_of_string s.

Definition code (c : ascii) : N := N_of_ascii c.

(** [str.isdigit] on one character: the decimal digits and the three
    superscript digits of Latin-1 (U+00B2, U+00B3, U+00B9). *)
Definition isdigit (c : ascii) : bool :=
  let n := code c in
  ((48 <=? n)%N && (n <=? 57)%N) || (n =? 178)%N || (n =? 179)%N || (n =? 185)%N.

(** [str.isspace] on one character. *)
Definition isspace (c : ascii) : bool :=
  let n := code c in
  ((9 <=? n)%N && (n <=? 13)%N) || ((28 <=? n)%N && (n <=? 32)%N)
  || (n =? 133)%N || (n =? 160)%N.

Definition len (s : str) : Z := Z.of_nat (length s).

(** Index of the first occurrence of [c] in [s]. *)
Fixpoint index_of (c : ascii) (s : str) : option nat :=
  match s with
  | [] => None
  | x :: r => if decide (x = c) then Some O else S <$> index_of c r
  end.

(** A slice bound as Python normalises it: a negative bound counts from the
    end, and the result is clamped to [0, len]. *)
Definition clamp (n : Z) (i : Z) : Z :=
  if i <? 0 then Z.max (n + i) 0 else Z.min i n.

(** [s.find(c, start)] for a one-character needle; [-1] when absent. *)
Definition find (s : str) (c : ascii) (start : Z) : Z :=
  if len s <? start then -1
  else
    let st := Z.to_nat (clamp (len s) start) in
    match index_of c (drop st s) with
    | Some k => Z.of_nat (st + k)
    | None => -1
    end.

(** [s[a:b]]. *)
Definition slice (s : str) (a b : Z) : str :=
  let a' := Z.to_nat (clamp (len s) a) in
  let b' := Z.to_nat (clamp (len s) b) in
  take (b' - a') (drop a' s).

(** The truth value of [l and l[0].isdigit()]. *)
Definition starts_with_digit (l : str) : bool :=
  match l with
  | [] => false
  | c :: _ => isdigit c
  end.

(** ** Python dictionaries, in insertion order *)

Section Dict.
Context {V : Type}.

Definition dict := list (str * V).

Fixpoint dict_get (d : dict) (k : str) : option V :=
  match d with
  | [] => None
  | (k', v) :: r => if decide (k' = k) then Some v else dict_get r k
  end.

(** [d[k] = v]: an existing key keeps its position, a new one goes last. *)
Fixpoint dict_set (d : dict) (k : str) (v : V) : dict :=
  match d with
  | [] => [(k, v)]
  | (k', v') :: r =>
      if decide (k' = k) then (k, v) :: r else (k', v') :: dict_set r k v
  end.

Definition keys (d : dict) : list str := d.*1.

(** The invariant of a dictionary: no key twice. *)
Definition dict_wf (d : dict) : Prop := NoDup (keys d).
End Dict.
Arguments dict : clear implicits.

(** ** Line analyser *)

(** [get_time_range]: [(None, None)] or the first and the last line that
    starts with a digit. *)
Definition get_time_range (lines : list str) : option str * option str :=
  let valid_lines := filter (λ l, starts_with_digit l = true) lines in
  match valid_lines with
  | [] => (None, None)
  | first :: _ => (Some first, Some (List.last valid_lines first))
  end.

(** [count_lines]. *)
Definition count_lines (lines : list str) : Z :=
  Z.of_nat (length (filter (λ l, starts_with_digit l = true) lines)).

(** One iteration of the loop of [count_subsystems]; a [defaultdict(int)]
    reads a missing key as [0]. *)
Definition count_subsystems_step (counter : dict Z) (line : str) : dict Z :=
  let start := find line "[" 0 in
  let end_ := find line "]" start in
  if negb (start =? -1) && negb (end_ =? -1) then
    let sub := slice line (start + 1) end_ in
    dict_set counter sub (default 0 (dict_get counter sub) + 1)
  else counter.

(** [count_subsystems]. *)
Definition count_subsystems (lines : list str) : dict Z :=
  fold_left count_subsystems_step lines [].

(** ** More of Python's [str] *)

(** [s.endswith(suf)]. *)
Definition endswith (s suf : str) : bool :=
  (length suf <=? length s)%nat
  && bool_decide (drop (length s - length suf) s = suf).

Fixpoint take_while {A} (p : A → bool) (l : list A) : list A :=
  match l with
  | x :: r => if p x then x :: take_while p r else []
  | [] => []
  end.

Fixpoint drop_while {A} (p : A → bool) (l : list A) : list A :=
  match l with
  | x :: r => if p x then drop_while p r else l
  | [] => []
  end.

(** [s.split()[0]]: the first run of characters that are not white space;
    [None] stands for the [IndexError] on a blank string. *)
Definition first_token (s : str) : option str :=
  match take_while (λ c, negb (isspace c)) (drop_while isspace s) with
  | [] => None
  | tok => Some tok
  end.

(** [s.split('+')[0]]: what comes before the first plus sign. *)
Definition before_plus (s : str) : str :=
  take_while (λ c, negb (bool_decide (c = "+"%char))) s.

(** Line boundaries of [str.splitlines] below code point 256. *)
Definition is_linebreak (c : ascii) : bool :=
  let n := code c in
  ((10 <=? n)%N && (n <=? 13)%N) || ((28 <=? n)%N && (n <=? 30)%N) || (n =? 133)%N.

(** [s.splitlines()], with [cur] the line being read, reversed.  A carriage
    return followed by a line feed ends one line, not two. *)
Fixpoint splitlines_from (cur : str) (s : str) : list str :=
  match s with
  | [] => match cur with [] => [] | _ => [reverse cur] end
  | c :: r =>
      if is_linebreak c then
        reverse cur ::
          match r with
          | c' :: r' =>
              if (code c =? 13)%N && (code c' =? 10)%N
              then splitlines_from [] r' else splitlines_from [] r
          | [] => []
          end
      else splitlines_from (c :: cur) r
  end.

Definition splitlines (s : str) : list str := splitlines_from [] s.

(** [os.path.join(a, b)] on POSIX. *)
Definition path_join (a b : str) : str :=
  match b with
  | "/"%char :: _ => b
  | _ => if bool_decide (a = []) || endswith a (lit "/") then a ++ b
         else a ++ lit "/" ++ b
  end.

(** [str(n)] for an integer. *)
Definition str_of_int (n : Z) : str :=
  lit (NilZero.string_of_int (Z.to_int n)).

(** ** Python floats *)

Abbreviation float := spec_float.

Definition prec : Z := 53.
Definition emax : Z := 1024.

(** [float(n)] for an integer in range. *)
Definition float_of_int (n : Z) : float := binary_normalize prec emax n 0 false.

(** [x / n] for a float and a non-zero integer constant. *)
Definition float_div_int (x : float) (n : Z) : float :=
  SFdiv prec emax x (float_of_int n).

(** [a / b] for two integers, the quotient rounded once; [None] stands for
    [ZeroDivisionError] and for [OverflowError]. *)
Definition int_truediv (a b : Z) : option float :=
  match a, b with
  | _, Z0 => None
  | Z0, _ => Some (S754_zero (b <? 0))
  | _, _ =>
      let q := SFdiv prec emax
                 (S754_finite (a <? 0) (Z.to_pos (Z.abs a)) 0)
                 (S754_finite (b <? 0) (Z.to_pos (Z.abs b)) 0) in
      match q with
      | S754_infinity _ | S754_nan => None
      | _ => Some q
      end
  end.

(** The integer nearest to [n / d], ties to the even one ([0 <= n], [0 < d]). *)
Definition round_half_even (n d : Z) : Z :=
  let q := n / d in
  match (2 * (n mod d)) ?= d with
  | Lt => q
  | Gt => q + 1
  | Eq => if Z.even q then q else q + 1
  end.

(** [round(x, 2)]: the exact value of [x] is rounded to two decimals, ties
    to even, and the decimal is converted back to the nearest float.  A float
    with a non-negative exponent is an integer and is returned as it is. *)
Definition round2 (x : float) : float :=
  match x with
  | S754_finite s m e =>
      if 0 <=? e then x
      else
        match round_half_even (Zpos m * 100) (2 ^ (- e)) with
        | Zpos p => SFdiv prec emax (S754_finite s p 0) (S754_finite false 100 0)
        | _ => S754_zero s
        end
  | _ => x
  end.

(** ** Timestamps *)

(** A [datetime]: microseconds of its own wall clock, and its offset from
    UTC in microseconds when it is aware. *)
Record datetime := { dt_micros : Z; dt_utcoffset : option Z }.

(** [a - b] in microseconds; [None] stands for the [TypeError] on an aware
    and a naive operand. *)
Definition datetime_sub (a b : datetime) : option Z :=
  match dt_utcoffset a, dt_utcoffset b with
  | None, None => Some (dt_micros a - dt_micros b)
  | Some oa, Some ob => Some ((dt_micros a - oa) - (dt_micros b - ob))
  | _, _ => None
  end.

(** [timedelta.total_seconds()]. *)
Definition total_seconds (micros : Z) : option float :=
  int_truediv micros 1000000.

(** ** Sorting *)

(** Insertion of [x] in a list sorted by decreasing key, before the first
    element whose key is not greater. *)
Fixpoint insert_desc {A} (key : A → Z) (x : A) (l : list A) : list A :=
  match l with
  | [] => [x]
  | y :: r => if key x <? key y then y :: insert_desc key x r else x :: y :: r
  end.

(** [sorted(l, key=key, reverse=True)]: the stable sort by decreasing key. *)
Definition sorted_desc {A} (key : A → Z) (l : list A) : list A :=
  foldr (insert_desc key) [] l.

(** [y] may follow [x] in a list sorted by decreasing key. *)
Definition desc {A} (key : A → Z) (x y : A) : Prop := key y ≤ key x.

(** ** Report writer *)

(** A value handed to [csv.writer.writerow]. *)
Inductive cell :=
  | CStr (s : str)
  | CInt (n : Z)
  | CFloat (x : float).

(** The [info] dictionary built by [main]. *)
Record info := {
  info_path : str;
  info_size : float;
  info_start : str;
  info_end : str;
  info_ttl : float;
  info_lines : Z;
  info_subsystems : dict Z
}.

(** [info['subsystems'].get]; every key sorted below is present. *)
Definition count_of (subsystems : dict Z) (sub : str) : Z :=
  default 0 (dict_get subsystems sub).

(** The rows of the second section, after its header. *)
Definition subsystem_rows (subsystems : dict Z) : list (list cell) :=
  (λ sub, [CStr sub; CInt (count_of subsystems sub)])
    <$> sorted_desc (count_of subsystems) (keys subsystems).

(** The rows of the first section, header included. *)
Definition scalar_rows (i : info) : list (list cell) :=
  let size_mb := round2 (float_div_int (info_size i) 1024) in
  let size_gb := round2 (float_div_int size_mb 1024) in
  let ttl_hours := round2 (float_div_int (info_ttl i) 60) in
  let ttl_days := round2 (float_div_int ttl_hours 24) in
  [ [CStr (lit "Field"); CStr (lit "Value")];
    [CStr (lit "Logarchive Path"); CStr (info_path i)];
    [CStr (lit "Size (KB)"); CFloat (info_size i)];
    [CStr (lit "Size (MB)"); CFloat size_mb];
    [CStr (lit "Size (GB)"); CFloat size_gb];
    [CStr (lit "First Log Line"); CStr (info_start i)];
    [CStr (lit "Last Log Line"); CStr (info_end i)];
    [CStr (lit "TTL (min)"); CFloat (info_ttl i)];
    [CStr (lit "TTL (hours)"); CFloat ttl_hours];
    [CStr (lit "TTL (days)"); CFloat ttl_days];
    [CStr (lit "Total Events"); CInt (info_lines i)];
    [CStr (lit "Unique Subsystems"); CInt (Z.of_nat (length (info_subsystems i)))] ].

(** All the rows [generate_csv] writes, in order. *)
Definition report_rows (i : info) : list (list cell) :=
  scalar_rows i
  ++ [ []; [CStr (lit "Subsystem"); CStr (lit "Event Count")] ]
  ++ subsystem_rows (info_subsystems i).

(** *** The text [csv.writer] produces (dialect [excel]) *)

(** The quote character, code 34. *)
Definition dquote : ascii := "034"%char.

Definition needs_quote (c : ascii) : bool :=
  bool_decide (c = ","%char) || bool_decide (c = dquote)
  || (code c =? 13)%N || (code c =? 10)%N.

Fixpoint double_quotes (s : str) : str :=
  match s with
  | [] => []
  | c :: r =>
      if bool_decide (c = dquote) then c :: c :: double_quotes r
      else c :: double_quotes r
  end.

Definition csv_field (s : str) : str :=
  if existsb needs_quote s then dquote :: double_quotes s ++ [dquote]
  else s.

Fixpoint csv_join (fields : list str) : str :=
  match fields with
  | [] => []
  | [f] => csv_field f
  | f :: r => csv_field f ++ ","%char :: csv_join r
  end.

Definition crlf : str := ["013"%char; "010"%char].

(** One record: a lone empty field is written quoted. *)
Definition csv_row (fields : list str) : str :=
  match fields with
  | [[]] => [dquote; dquote] ++ crlf
  | _ => csv_join fields ++ crlf
  end.

Section Report.
(** [repr] of a float, the text [csv.writer] writes for it. *)
Variable float_repr : float → str.

Definition cell_text (c : cell) : str :=
  match c with
  | CStr s => s
  | CInt n => str_of_int n
  | CFloat x => float_repr x
  end.

(** The content of the file [generate_csv] leaves behind. *)
Definition csv_text (rows : list (list cell)) : str :=
  concat (map (λ row, csv_row (map cell_text row)) rows).

End Report.

(** ** Reading the report back

    [csv.reader] with the dialect [excel], not strict, over the file opened
    with [newline=''], as the [csv] module asks.  The program only writes;
    this is the reader the round trip of the report is stated with. *)

Inductive rstate :=
  | START_RECORD
  | START_FIELD
  | IN_FIELD
  | IN_QUOTED_FIELD
  | QUOTE_IN_QUOTED_FIELD
  | EAT_CRNL.

#[global] Instance rstate_eq_dec : EqDecision rstate.
Proof. solve_decision. Defined.

(** The reader between two characters: its state, the field being read and
    the fields of the record read so far. *)
Record reader := {
  r_state : rstate;
  r_field : str;
  r_fields : list str
}.

Definition reader_reset : reader :=
  {| r_state := START_RECORD; r_field := []; r_fields := [] |}.

Definition with_state (st : rstate) (r : reader) : reader :=
  {| r_state := st; r_field := r_field r; r_fields := r_fields r |}.

Definition parse_add_char (c : ascii) (r : reader) : reader :=
  {| r_state := r_state r; r_field := r_field r ++ [c]; r_fields := r_fields r |}.

Definition parse_save_field (r : reader) : reader :=
  {| r_state := r_state r; r_field := []; r_fields := r_fields r ++ [r_field r] |}.

Definition is_cr (c : ascii) : bool := (code c =? 13)%N.
Definition is_lf (c : ascii) : bool := (code c =? 10)%N.

(** A field ends at a line break ([Some c]) or at the end of a line
    ([None]). *)
Definition end_of_field (c : option ascii) (r : reader) : reader :=
  with_state (match c with None => START_RECORD | Some _ => EAT_CRNL end)
             (parse_save_field r).

(** What the reader does with a character that is no line break at the
    start of a field. *)
Definition start_field (c : ascii) (r : reader) : reader :=
  if bool_decide (c = dquote) then with_state IN_QUOTED_FIELD r
  else if bool_decide (c = ","%char) then with_state START_FIELD (parse_save_field r)
  else with_state IN_FIELD (parse_add_char c r).

(** [parse_process_char]: one character [Some c], or the end of a line
    [None]; the result [None] is the reader's error. *)
Definition parse_process_char (r : reader) (c : option ascii) : option reader :=
  match r_state r, c with
  | START_RECORD, None => Some r
  | START_RECORD, Some ch =>
      if is_lf ch || is_cr ch then Some (with_state EAT_CRNL r)
      else Some (start_field ch r)
  | START_FIELD, None => Some (end_of_field c r)
  | START_FIELD, Some ch =>
      if is_lf ch || is_cr ch then Some (end_of_field c r)
      else Some (start_field ch r)
  | IN_FIELD, None => Some (end_of_field c r)
  | IN_FIELD, Some ch =>
      if is_lf ch || is_cr ch then Some (end_of_field c r)
      else if bool_decide (ch = ","%char)
           then Some (with_state START_FIELD (parse_save_field r))
      else Some (parse_add_char ch r)
  | IN_QUOTED_FIELD, None => Some r
  | IN_QUOTED_FIELD, Some ch =>
      if bool_decide (ch = dquote) then Some (with_state QUOTE_IN_QUOTED_FIELD r)
      else Some (parse_add_char ch r)
  | QUOTE_IN_QUOTED_FIELD, None => Some (end_of_field c r)
  | QUOTE_IN_QUOTED_FIELD, Some ch =>
      if bool_decide (ch = dquote)
      then Some (with_state IN_QUOTED_FIELD (parse_add_char ch r))
      else if bool_decide (ch = ","%char)
           then Some (with_state START_FIELD (parse_save_field r))
      else if is_lf ch || is_cr ch then Some (end_of_field c r)
      else Some (with_state IN_FIELD (parse_add_char ch r))
  | EAT_CRNL, None => Some (with_state START_RECORD r)
  | EAT_CRNL, Some ch => if is_lf ch || is_cr ch then Some r else None
  end.

(** Whether a line of the file ends after [c], [rest] being what follows:
    at a line feed, at a carriage return no line feed follows, and at the
    end of the file. *)
Definition line_ends (c : ascii) (rest : str) : bool :=
  match rest with
  | [] => true
  | c' :: _ => is_lf c || (is_cr c && negb (is_lf c'))
  end.

(** The records read from [s] by a reader in state [r].  After the last
    character of each line the reader is told the line has ended, and a
    record is complete when that leaves it in [START_RECORD].  When the
    input is exhausted inside a record, what was read is returned. *)
Fixpoint read_records (r : reader) (s : str) : option (list (list str)) :=
  match s with
  | [] =>
      if negb (bool_decide (r_field r = []))
         || bool_decide (r_state r = IN_QUOTED_FIELD)
      then Some [r_fields (parse_save_field r)]
      else Some []
  | c :: rest =>
      r1 ← parse_process_char r (Some c);
      if line_ends c rest then
        r2 ← parse_process_char r1 None;
        if bool_decide (r_state r2 = START_RECORD)
        then (r_fields r2 ::.) <$> read_records reader_reset rest
        else read_records r2 rest
      else read_records r1 rest
  end.

(** [list(csv.reader(f))]. *)
Definition csv_read (s : str) : option (list (list str)) :=
  read_records reader_reset s.

(** [int(s)] on the decimal text of an integer. *)
Definition int_of_str (s : str) : option Z :=
  Z.of_int <$> NilZero.int_of_string (string_of_list_ascii s).

(** What a reader of the report recovers. *)
Record readback := {
  rb_path : str;
  rb_size : float;
  rb_size_mb : float;
  rb_size_gb : float;
  rb_start : str;
  rb_end : str;
  rb_ttl : float;
  rb_ttl_hours : float;
  rb_ttl_days : float;
  rb_lines : Z;
  rb_unique : Z;
  rb_subsystems : list (str * Z)
}.

(** A row of the second section. *)
Definition read_pair (row : list str) : option (str * Z) :=
  match row with
  | [sub; count] => n ← int_of_str count; Some (sub, n)
  | _ => None
  end.

Section ReadBack.
(** [float(s)], the inverse of [repr]. *)
Variable float_parse : str → option float.

(** The report read from the table of its file: the values of the first
    section by position, then the pairs of the second. *)
Definition decode (table : list (list str)) : option readback :=
  match table with
  | _ :: [_; path] :: [_; kb] :: [_; mb] :: [_; gb] :: [_; start] :: [_; end_]
      :: [_; ttl] :: [_; hours] :: [_; days] :: [_; lines] :: [_; unique]
      :: [] :: _ :: pairs =>
      kb ← float_parse kb;
      mb ← float_parse mb;
      gb ← float_parse gb;
      ttl ← float_parse ttl;
      hours ← float_parse hours;
      days ← float_parse days;
      lines ← int_of_str lines;
      unique ← int_of_str unique;
      pairs ← mapM read_pair pairs;
      Some {| rb_path := path; rb_size := kb; rb_size_mb := mb; rb_size_gb := gb;
              rb_start := start; rb_end := end_; rb_ttl := ttl;
              rb_ttl_hours := hours; rb_ttl_days := days;
              rb_lines := lines; rb_unique := unique; rb_subsystems := pairs |}
  | _ => None
  end.
End ReadBack.

(** The floats a report shows. *)
Definition report_floats (i : info) : list float :=
  let size_mb := round2 (float_div_int (info_size i) 1024) in
  let ttl_hours := round2 (float_div_int (info_ttl i) 60) in
  [info_size i; size_mb; round2 (float_div_int size_mb 1024);
   info_ttl i; ttl_hours; round2 (float_div_int ttl_hours 24)].

(** ** The world outside the program *)

(** What [subprocess.run] does with the [log show] command. *)
Inductive run_result :=
  | Completed (stdout : str)
  | TimeoutExpired
  | LaunchFailed.

Record World := {
  (** [os.path.isdir], [os.path.isfile], [os.path.getsize] *)
  w_isdir : str → bool;
  w_isfile : str → bool;
  w_getsize : str → Z;
  (** [os.walk]: the triples [(root, dirs, files)] in the order it yields them *)
  w_walk : str → list (str * list str * list str);
  (** [tempfile.mkdtemp] and [tarfile] extraction: the temporary directory,
      or [None] when the archive cannot be read *)
  w_extract : str → option str;
  (** the [log show] tool on an archive *)
  w_log_show : str → run_result;
  (** [dateutil.parser.parse] when the package is installed *)
  w_dateutil : option (str → option datetime);
  (** [datetime.strptime] with the format [%Y-%m-%d %H:%M:%S.%f] *)
  w_strptime : str → option datetime;
  (** [datetime.now().strftime("%Y%m%d_%H%M%S")] *)
  w_now : str;
  (** whether the report file can be opened for writing *)
  w_writable : str → bool;
  (** what the operator types at the prompt *)
  w_answer : str
}.

(** What the run prints.  The [Info] messages go through [vprint]
    ([VERBOSE] is [True]); the [Err] messages are printed as they are. *)
Inductive message :=
  | InfoExtracted (temp_dir : str)
  | InfoNoValidLines
  | InfoCsvGenerated (path : str)
  | InfoExtracting (path : str)
  | InfoDetected (path : str)
  | InfoDeleted (temp_dir : str)
  | InfoKept (temp_dir : str)
  | ErrTimestampParsing (t : str)
  | ErrTimeout (path : str)
  | ErrNoLogarchiveInSysdiagnose
  | ErrNoLogarchiveInDirectory
  | ErrInvalidInput
  | ErrNoLogOutput
  | ErrNoTimestamps.

(** The text of the error messages. *)
Definition error_text (m : message) : option str :=
  match m with
  | ErrTimeout path => Some (lit "[ERROR] Timeout while reading logarchive: " ++ path)
  | ErrNoLogarchiveInSysdiagnose =>
      Some (lit "[ERROR] No .logarchive found in sysdiagnose.")
  | ErrNoLogarchiveInDirectory =>
      Some (lit "[ERROR] No .logarchive found in directory.")
  | ErrInvalidInput =>
      Some (lit "[ERROR] Invalid input: must be .logarchive, directory, or .tar.gz")
  | ErrNoLogOutput => Some (lit "[ERROR] No valid log output returned.")
  | ErrNoTimestamps => Some (lit "[ERROR] No valid timestamps found.")
  | _ => None
  end.

(** What the run does to the outside. *)
Inductive event :=
  | Print (m : message)
  | WriteFile (path : str) (content : str)
  | Prompt (temp_dir : str)
  | Rmtree (temp_dir : str).

(** Exceptions nothing in the program catches. *)
Inductive exn :=
  | ParseError (t : str)
  | IndexError
  | TypeError
  | OverflowError
  | ExtractError (tar_path : str)
  | LaunchError
  | WriteError (path : str).

Inductive result (A : Type) :=
  | Ok (a : A)
  | Raised (e : exn).
Arguments Ok {A} a.
Arguments Raised {A} e.

(** A computation: the events so far, then a value or an exception. *)
Definition M (A : Type) : Type := list event * result A.

Definition ret {A} (a : A) : M A := ([], Ok a).

Definition bind {A B} (m : M A) (f : A → M B) : M B :=
  match m with
  | (t, Ok a) => let '(t', r) := f a in (t ++ t', r)
  | (t, Raised e) => (t, Raised e)
  end.

Definition emit (e : event) : M unit := ([e], Ok tt).
Definition raise {A} (e : exn) : M A := ([], Raised e).
Definition print (m : message) : M unit := emit (Print m).

#[global] Instance M_ret : MRet M := @ret.
#[global] Instance M_bind : MBind M := λ A B f m, bind m f.

(** Python's truth value of a string or [None]. *)
Definition truthy (o : option str) : bool :=
  match o with
  | None => false
  | Some s => negb (bool_decide (s = []))
  end.

(** ** Archive locator *)

(** The inner loop of [find_logarchive_in_directory] over the
    subdirectories of one [root]. *)
Fixpoint find_in_dirs (w : World) (root : str) (dirs : list str) : option str :=
  match dirs with
  | [] => None
  | d :: rest =>
      if endswith d (lit ".logarchive") then
        let full_path := path_join root d in
        if w_isdir w (path_join full_path (lit "Persist")) then Some full_path
        else find_in_dirs w root rest
      else find_in_dirs w root rest
  end.

(** The outer loop, over what [os.walk] yields. *)
Fixpoint find_in_walk (w : World) (walk : list (str * list str * list str))
  : option str :=
  match walk with
  | [] => None
  | (root, dirs, _) :: rest =>
      match find_in_dirs w root dirs with
      | Some p => Some p
      | None => find_in_walk w rest
      end
  end.

Definition find_logarchive_in_directory (w : World) (base_dir : str) : option str :=
  find_in_walk w (w_walk w base_dir).

Definition extract_tar_gz (w : World) (tar_path : str) : M str :=
  match w_extract w tar_path with
  | None => raise (ExtractError tar_path)
  | Some temp_dir => print (InfoExtracted temp_dir);; ret temp_dir
  end.

(** ** Log renderer *)

Definition extract_log_output (w : World) (path : str) : M (list str) :=
  print (InfoExtracting path);;
  match w_log_show w path with
  | Completed stdout => ret (splitlines stdout)
  | TimeoutExpired => print (ErrTimeout path);; ret []
  | LaunchFailed => raise LaunchError
  end.

(** ** Directory size *)

(** The inner loop of [get_dir_size_kb] over the files of one directory. *)
Definition add_files_size (w : World) (dirpath : str) (filenames : list str)
    (total_size : Z) : Z :=
  fold_left
    (λ total f, let fp := path_join dirpath f in
                if w_isfile w fp then total + w_getsize w fp else total)
    filenames total_size.

(** The outer loop, over what [os.walk] yields. *)
Definition total_size (w : World) (path : str) : Z :=
  fold_left (λ total '(dirpath, _, filenames), add_files_size w dirpath filenames total)
            (w_walk w path) 0.

Definition get_dir_size_kb (w : World) (path : str) : M float :=
  match int_truediv (total_size w path) 1024 with
  | Some q => ret (round2 q)
  | None => raise OverflowError
  end.

(** ** Timestamp parsing and the time to live *)

(** [parse_time]: [dateutil] when it can be imported, else [strptime] on
    the text before the first plus sign, whose failure is reported and
    raised again. *)
Definition parse_time (w : World) (t : str) : M datetime :=
  match w_dateutil w with
  | Some parse =>
      match parse t with
      | Some d => ret d
      | None => raise (ParseError t)
      end
  | None =>
      match w_strptime w (before_plus t) with
      | Some d => ret d
      | None => print (ErrTimestampParsing t);; raise (ParseError t)
      end
  end.

(** [x.split()[0]] as a computation. *)
Definition first_token_or_raise (line : str) : M str :=
  match first_token line with
  | Some tok => ret tok
  | None => raise IndexError
  end.

(** The minutes between two parsed timestamps:
    [round((e - s).total_seconds() / 60, 2)]. *)
Definition ttl_minutes (e s : datetime) : M float :=
  match datetime_sub e s with
  | None => raise TypeError
  | Some micros =>
      match total_seconds micros with
      | None => raise OverflowError
      | Some secs => ret (round2 (float_div_int secs 60))
      end
  end.

(** Line 169 of [main]: the operand on the left is evaluated first. *)
Definition compute_ttl (w : World) (start_line end_line : str) : M float :=
  end_tok ← first_token_or_raise end_line;
  e ← parse_time w end_tok;
  start_tok ← first_token_or_raise start_line;
  s ← parse_time w start_tok;
  ttl_minutes e s.

(** [get_time_range] with the message it prints. *)
Definition get_time_range_io (lines : list str) : M (option str * option str) :=
  match get_time_range lines with
  | (None, e) => print InfoNoValidLines;; ret (None, e)
  | r => ret r
  end.

(** ** Driver *)

Section Driver.
Variable float_repr : float → str.

(** [generate_csv]. *)
Definition generate_csv (w : World) (i : info) (path : str) : M unit :=
  if w_writable w path then
    emit (WriteFile path (csv_text float_repr (report_rows i)));;
    print (InfoCsvGenerated path)
  else raise (WriteError path).

(** [str.lower] and [str.strip], for the answer at the prompt. *)
Definition lower (c : ascii) : ascii :=
  let n := code c in
  if ((65 <=? n)%N && (n <=? 90)%N)
     || ((192 <=? n)%N && (n <=? 222)%N && negb (n =? 215)%N)
  then ascii_of_N (n + 32) else c.

Definition strip (s : str) : str :=
  reverse (drop_while isspace (reverse (drop_while isspace s))).

(** The end of [main]: the prompt about the temporary directory. *)
Definition cleanup (w : World) (temp_dir : option str) : M unit :=
  if truthy temp_dir then
    let dir := default [] temp_dir in
    emit (Prompt dir);;
    let answer := map lower (strip (w_answer w)) in
    if bool_decide (answer = lit "y") then
      emit (Rmtree dir);; print (InfoDeleted dir)
    else print (InfoKept dir)
  else ret tt.

(** The first part of [main]: from the argument to the archive path and
    the temporary directory, or [None] after an error message. *)
Definition locate (w : World) (path : str) : M (option (str * option str)) :=
  if endswith path (lit ".tar.gz") then
    temp_dir ← extract_tar_gz w path;
    let found := find_logarchive_in_directory w temp_dir in
    if negb (truthy found) then
      print ErrNoLogarchiveInSysdiagnose;; ret None
    else ret (Some (default [] found, Some temp_dir))
  else if endswith path (lit ".logarchive") && w_isdir w path then
    print (InfoDetected path);; ret (Some (path, None))
  else if w_isdir w path then
    let detected := find_logarchive_in_directory w path in
    if truthy detected then ret (Some (default [] detected, None))
    else print ErrNoLogarchiveInDirectory;; ret None
  else
    print ErrInvalidInput;; ret None.

(** The second part of [main], from the located archive on. *)
Definition analyse (w : World) (path : str) (temp_dir : option str) : M unit :=
  size_kb ← get_dir_size_kb w path;
  log_lines ← extract_log_output w path;
  if bool_decide (log_lines = []) then print ErrNoLogOutput
  else
    '(start_line, end_line) ← get_time_range_io log_lines;
    if negb (truthy start_line) || negb (truthy end_line) then print ErrNoTimestamps
    else
      let start_line := default [] start_line in
      let end_line := default [] end_line in
      ttl ← compute_ttl w start_line end_line;
      let lines := count_lines log_lines in
      let subsystems := count_subsystems log_lines in
      let i := {| info_path := path; info_size := size_kb;
                  info_start := start_line; info_end := end_line;
                  info_ttl := ttl; info_lines := lines;
                  info_subsystems := subsystems |} in
      let csv_output := lit "log_report_" ++ w_now w ++ lit ".csv" in
      generate_csv w i csv_output;;
      cleanup w temp_dir.

(** [main], on the positional argument [input]. *)
Definition main (w : World) (input : str) : M unit :=
  located ← locate w input;
  match located with
  | None => ret tt
  | Some (path, temp_dir) => analyse w path temp_dir
  end.

End Driver.

(** The files a run wrote. *)
Definition files_written (t : list event) : list (str * str) :=
  omap (λ e, match e with WriteFile p c => Some (p, c) | _ => None end) t.

(** The messages a run printed. *)
Definition printed (t : list event) : list message :=
  omap (λ e, match e with Print m => Some m | _ => None end) t.

(** ** Reference notions the analyser is compared with *)

(** [lab] is the text strictly between the first bracket that opens in
    [line] and the first bracket that closes after it. *)
Definition first_bracket_pair (line lab : str) : Prop :=
  ∃ pre post : str,
    (line = pre ++ ("["%char :: lab) ++ ("]"%char :: post))
    ∧ ("["%char ∉ pre) ∧ ("]"%char ∉ lab).

(** The same, computed: cut at the first opening bracket, then at the first
    closing bracket of what follows. *)
Definition label_of (line : str) : option str :=
  match index_of "[" line with
  | None => None
  | Some i =>
      let rest := drop (S i) line in
      match index_of "]" rest with
      | None => None
      | Some j => Some (take j rest)
      end
  end.

(** Number of lines whose first bracket pair encloses [k]. *)
Definition label_count (lines : list str) (k : str) : Z :=
  Z.of_nat (length (filter (λ l, label_of l = Some k) lines)).

(** The subdirectories [os.walk] presents, each with its root, in the
    order [find_logarchive_in_directory] visits them. *)
Definition walk_dirs (walk : list (str * list str * list str)) : list (str * str) :=
  flat_map (λ '(root, dirs, _), map (λ d, (root, d)) dirs) walk.

(** A subdirectory named like a logarchive that holds a directory
    [Persist]. *)
Definition is_logarchive (w : World) (rd : str * str) : bool :=
  endswith rd.2 (lit ".logarchive")
  && w_isdir w (path_join (path_join rd.1 rd.2) (lit "Persist")).

(** String operations stay folded in proofs. *)
Arguments lit : simpl never.
Arguments endswith : simpl never.
Arguments path_join : simpl never.
Arguments parse_process_char : simpl never.
Arguments line_ends : simpl never.

(** The count a row of the second section shows. *)
Definition row_count (row : list cell) : Z :=
  match row with
  | [_; CInt n] => n
  | _ => 0
  end.

(** The row of one entry of the tally. *)
Definition row_of_item (item : str * Z) : list cell :=
  [CStr item.1; CInt item.2].

(** The [info] dictionary [main] builds from what it measured. *)
Definition report_info (path : str) (size_kb : float) (log_lines : list str)
    (start_line end_line : str) (ttl : float) : info :=
  {| info_path := path; info_size := size_kb;
     info_start := start_line; info_end := end_line;
     info_ttl := ttl; info_lines := count_lines log_lines;
     info_subsystems := count_subsystems log_lines |}.

(** ** Sample data *)

(** Two rendered lines, an hour and a half apart. *)
Definition sample_first_line : str :=
  lit "2024-01-01 00:00:00.000 host proc[1]: first".
Definition sample_last_line : str :=
  lit "2024-01-01 01:30:00.000 host proc[1]: last".

(** The floats 90.0, 1.5 and 0.06. *)
Definition float_90 : float := S754_finite false 6333186975989760 (-46).
Definition float_1_5 : float := S754_finite false 6755399441055744 (-52).
Definition float_0_06 : float := S754_finite false 8646911284551352 (-57).

(** A stand-in for [repr] on floats, used where a concrete text is needed:
    sign, mantissa and binary exponent in decimal.  It is not Python's
    shortest decimal, which the development leaves abstract. *)
Definition demo_float_repr (x : float) : str :=
  match x with
  | S754_zero s => if s then lit "-0.0" else lit "0.0"
  | S754_infinity s => if s then lit "-inf" else lit "inf"
  | S754_nan => lit "nan"
  | S754_finite s m e =>
      (if s then lit "-" else []) ++ str_of_int (Zpos m) ++ lit "p" ++ str_of_int e
  end.

(** The inverse of the stand-in. *)
Definition demo_float_parse (s : str) : option float :=
  if bool_decide (s = lit "0.0") then Some (S754_zero false)
  else if bool_decide (s = lit "-0.0") then Some (S754_zero true)
  else if bool_decide (s = lit "inf") then Some (S754_infinity false)
  else if bool_decide (s = lit "-inf") then Some (S754_infinity true)
  else if bool_decide (s = lit "nan") then Some S754_nan
  else
    let '(negative, body) :=
      match s with
      | "-"%char :: r => (true, r)
      | _ => (false, s)
      end in
    let not_p := λ c : ascii, negb (bool_decide (c = "p"%char)) in
    m ← int_of_str (take_while not_p body);
    e ← int_of_str (drop 1 (drop_while not_p body));
    match m with
    | Zpos p => Some (S754_finite negative p e)
    | _ => None
    end.

(** The rendered log of the sample archive: two stamped lines and one
    continuation line. *)
Definition demo_stdout : str :=
  sample_first_line ++ ["010"%char]
  ++ lit "    continued [B] text" ++ ["010"%char]
  ++ sample_last_line ++ ["010"%char].

Definition demo_datetime : datetime :=
  {| dt_micros := 63839664000000000; dt_utcoffset := None |}.

(** A small world: one logarchive that renders, one that times out, and
    one sysdiagnose bundle without a logarchive. *)
Definition demo_world : World := {|
  w_isdir p :=
    bool_decide (p ∈ [lit "/logs/system.logarchive";
                      lit "/logs/system.logarchive/Persist";
                      lit "/logs/slow.logarchive";
                      lit "/tmp/sysdiag_extract_e";
                      lit "/tmp/sysdiag_extract_e/notes"]);
  w_isfile p := bool_decide (p = lit "/logs/system.logarchive/Persist/0001.tracev3");
  w_getsize _ := 123456;
  w_walk p :=
    if bool_decide (p = lit "/logs/system.logarchive") then
      [(p, [lit "Persist"], []);
       (lit "/logs/system.logarchive/Persist", [], [lit "0001.tracev3"])]
    else if bool_decide (p = lit "/tmp/sysdiag_extract_e") then
      [(p, [lit "notes"], [lit "summary.txt"]);
       (lit "/tmp/sysdiag_extract_e/notes", [], [])]
    else [];
  w_extract p :=
    if bool_decide (p = lit "/in/empty.tar.gz") then Some (lit "/tmp/sysdiag_extract_e")
    else None;
  w_log_show p :=
    if bool_decide (p = lit "/logs/system.logarchive") then Completed demo_stdout
    else TimeoutExpired;
  w_dateutil :=
    Some (λ t, if bool_decide (t = lit "2024-01-01") then Some demo_datetime else None);
  w_strptime _ := None;
  w_now := lit "20240102_120000";
  w_writable _ := true;
  w_answer := lit " Y "
|}.

(** A report on five lines with three labels. *)
Definition demo_info : info :=
  report_info (lit "/logs/system.logarchive")
    (S754_finite false 8483655798059172 (-46))
    [lit "1 [B]"; lit "2 [A]"; lit "3 [A]"; lit "4 [C]"; lit "5 [C]"]
    (lit "1 [B]") (lit "5 [C]") float_90.

(** A reader about to read a field. *)
Definition at_field_start (st : rstate) : Prop :=
  st = START_RECORD ∨ st = START_FIELD.

(** ** Notions for the further properties *)

(** [sum(info['subsystems'].values())], the first line of [generate_csv]. *)
Definition total_events (subsystems : dict Z) : Z :=
  fold_left Z.add subsystems.*2 0.

(** The labels of the lines that have one, in the order of the lines. *)
Definition line_labels (lines : list str) : list str := omap label_of lines.

(** The distinct elements of a list, each at its first occurrence. *)
Fixpoint first_occurrences (l : list str) : list str :=
  match l with
  | [] => []
  | x :: r => x :: filter (λ y, y ≠ x) (first_occurrences r)
  end.

(** The messages that report a failure. *)
Definition is_error (m : message) : bool :=
  match m with
  | ErrTimestampParsing _ | ErrTimeout _ | ErrNoLogarchiveInSysdiagnose
  | ErrNoLogarchiveInDirectory | ErrInvalidInput | ErrNoLogOutput
  | ErrNoTimestamps => true
  | _ => false
  end.

(** A trace that only prints. *)
Definition quiet (t : list event) : Prop := Forall (λ e, ∃ m, e = Print m) t.

(** The name of the report of a run. *)
Definition report_name (w : World) : str :=
  lit "log_report_" ++ w_now w ++ lit ".csv".

(** The files [os.walk] presents, each with its directory. *)
Definition walk_files (walk : list (str * list str * list str)) : list (str * str) :=
  flat_map (λ '(dirpath, _, filenames), map (λ f, (dirpath, f)) filenames) walk.

(** The size [get_dir_size_kb] adds for one entry. *)
Definition file_size (w : World) (df : str * str) : Z :=
  let fp := path_join df.1 df.2 in
  if w_isfile w fp then w_getsize w fp else 0.

Definition sum_Z (l : list Z) : Z := foldr Z.add 0 l.

(** The line feed. *)
Definition lf : ascii := "010"%char.

(** The sample world with a sysdiagnose bundle that holds the sample
    logarchive. *)
Definition demo_world_bundle : World := {|
  w_isdir := w_isdir demo_world;
  w_isfile := w_isfile demo_world;
  w_getsize := w_getsize demo_world;
  w_walk p :=
    if bool_decide (p = lit "/logs") then
      [(p, [lit "system.logarchive"], []);
       (lit "/logs/system.logarchive", [lit "Persist"], [])]
    else w_walk demo_world p;
  w_extract p :=
    if bool_decide (p = lit "/in/full.tar.gz") then Some (lit "/logs")
    else w_extract demo_world p;
  w_log_show := w_log_show demo_world;
  w_dateutil := w_dateutil demo_world;
  w_strptime := w_strptime demo_world;
  w_now := w_now demo_world;
  w_writable := w_writable demo_world;
  w_answer := w_answer demo_world
|}.


(** A trace without an error message. *)
Definition calm (t : list event) : Prop :=
  Forall (λ e, ∀ m, e = Print m → is_error m = false) t.

(* ===================================================================== *)
(** * Properties *)
(* ===================================================================== *)

(** ** Strings *)

Lemma index_of_Some c s k :
  index_of c s = Some k ↔
  ∃ pre post, s = pre ++ (c :: post) ∧ (c ∉ pre) ∧ length pre = k.
Proof.
  revert k. induction s as [|x r IH]; intros k; simpl.
  - split; [done|]. intros (pre & post & E & _). by destruct pre.
  - destruct (decide (x = c)) as [->|Hne].
    + split.
      * intros [= <-]. exists [], r. split_and!; [done | apply not_elem_of_nil | done].
      * intros (pre & post & E & Hn & <-). destruct pre as [|y pre]; [done|].
        simplify_eq/=. exfalso. apply Hn. left.
    + destruct (index_of c r) as [j|] eqn:Hj; simpl.
      * split.
        -- intros [= <-]. destruct (proj1 (IH j) eq_refl) as (pre & post & -> & Hn & <-).
           exists (x :: pre), post. split_and!; [done | | done].
           rewrite not_elem_of_cons. done.
        -- intros (pre & post & E & Hn & <-). destruct pre as [|y pre]; simplify_eq/=.
           apply not_elem_of_cons in Hn as [_ Hn].
           f_equal. f_equal. assert (Some j = Some (length pre)) as [= ->]; [|done].
           apply IH. eauto.
      * split; [done|]. intros (pre & post & E & Hn & <-).
        destruct pre as [|y pre]; simplify_eq/=.
        apply not_elem_of_cons in Hn as [_ Hn].
        assert (None = Some (length pre)); [|done]. apply IH. eauto.
Qed.

Lemma index_of_lt c s k : index_of c s = Some k → (k < length s)%nat.
Proof.
  intros (pre & post & -> & _ & <-)%index_of_Some.
  rewrite length_app. simpl. lia.
Qed.

Lemma index_of_drop c s k :
  index_of c s = Some k → drop k s = c :: drop (S k) s.
Proof.
  intros (pre & post & -> & _ & <-)%index_of_Some.
  rewrite drop_app_length.
  replace (S (length pre)) with (length pre + 1)%nat by lia.
  by rewrite <- drop_drop, drop_app_length.
Qed.

Lemma find_from_0 s c :
  find s c 0 = match index_of c s with Some k => Z.of_nat k | None => -1 end.
Proof.
  unfold find, clamp, len.
  destruct (Z.ltb_spec (Z.of_nat (length s)) 0); [lia|]. simpl.
  replace (Z.to_nat (Z.min 0 (Z.of_nat (length s)))) with O by lia.
  rewrite drop_0. by destruct (index_of c s).
Qed.

Lemma find_from_index s c (i : nat) :
  (i ≤ length s)%nat →
  find s c (Z.of_nat i) =
  match index_of c (drop i s) with Some k => Z.of_nat (i + k) | None => -1 end.
Proof.
  intros Hi. unfold find, clamp, len.
  destruct (Z.ltb_spec (Z.of_nat (length s)) (Z.of_nat i)); [lia|].
  destruct (Z.ltb_spec (Z.of_nat i) 0); [lia|].
  replace (Z.to_nat (Z.min (Z.of_nat i) (Z.of_nat (length s)))) with i by lia.
  done.
Qed.

Lemma slice_nonneg s (a b : nat) :
  (a ≤ b ≤ length s)%nat → slice s (Z.of_nat a) (Z.of_nat b) = take (b - a) (drop a s).
Proof.
  intros H. unfold slice, clamp, len.
  destruct (Z.ltb_spec (Z.of_nat a) 0); [lia|].
  destruct (Z.ltb_spec (Z.of_nat b) 0); [lia|].
  f_equal; [|f_equal]; lia.
Qed.

(** ** The subsystem tally *)

(** The loop body of [count_subsystems] adds one to the label of the line,
    when the line has one. *)
Lemma count_subsystems_step_label counter line :
  count_subsystems_step counter line =
  match label_of line with
  | Some sub => dict_set counter sub (default 0 (dict_get counter sub) + 1)
  | None => counter
  end.
Proof.
  unfold count_subsystems_step, label_of. rewrite find_from_0.
  destruct (index_of "[" line) as [i|] eqn:Hi; [|done].
  pose proof (index_of_lt _ _ _ Hi) as Hlt.
  rewrite find_from_index by lia.
  rewrite (index_of_drop _ _ _ Hi). simpl.
  destruct (index_of "]" (drop (S i) line)) as [j|] eqn:Hj; simpl.
  - pose proof (index_of_lt _ _ _ Hj) as Hjl. rewrite length_drop in Hjl.
    destruct (Z.eqb_spec (Z.of_nat i) (-1)); [lia|].
    destruct (Z.eqb_spec (Z.of_nat (i + S j)) (-1)); [lia|]. simpl.
    replace (Z.of_nat i + 1) with (Z.of_nat (S i)) by lia.
    rewrite slice_nonneg by lia.
    by replace (i + S j - S i)%nat with j by lia.
  - destruct (Z.eqb_spec (Z.of_nat i) (-1)); [lia|]. done.
Qed.

Lemma label_of_spec line lab :
  label_of line = Some lab ↔ first_bracket_pair line lab.
Proof.
  unfold label_of, first_bracket_pair. split.
  - destruct (index_of "[" line) as [i|] eqn:Hi; [|done].
    apply index_of_Some in Hi as (pre & post & -> & Hpre & <-).
    replace (S (length pre)) with (length pre + 1)%nat by lia.
    rewrite <- drop_drop, drop_app_length. simpl. rewrite drop_0.
    destruct (index_of "]" post) as [j|] eqn:Hj; [|done].
    apply index_of_Some in Hj as (mid & post' & -> & Hmid & <-).
    intros [= <-]. rewrite take_app_length. by exists pre, post'.
  - intros (pre & post & -> & Hpre & Hlab).
    assert (index_of "[" (pre ++ ("["%char :: lab) ++ "]"%char :: post)
            = Some (length pre)) as ->.
    { apply index_of_Some. exists pre, (lab ++ "]"%char :: post). done. }
    replace (S (length pre)) with (length pre + 1)%nat by lia.
    rewrite <- drop_drop, drop_app_length. simpl. rewrite drop_0.
    assert (index_of "]" (lab ++ "]"%char :: post) = Some (length lab)) as ->.
    { apply index_of_Some. by exists lab, post. }
    by rewrite take_app_length.
Qed.

(** ** Dictionaries *)

Section DictFacts.
Context {V : Type}.
Implicit Types (d : dict V) (k : str) (v : V).

Lemma dict_get_set d k v k' :
  dict_get (dict_set d k v) k' = if decide (k = k') then Some v else dict_get d k'.
Proof.
  induction d as [|[k0 v0] d IH]; simpl.
  - by destruct (decide (k = k')).
  - destruct (decide (k0 = k)) as [->|Hne]; simpl.
    + by destruct (decide (k = k')).
    + destruct (decide (k0 = k')) as [->|]; [|done].
      by destruct (decide (k = k')).
Qed.

Lemma keys_dict_set_in d k v :
  is_Some (dict_get d k) → keys (dict_set d k v) = keys d.
Proof.
  unfold keys. induction d as [|[k0 v0] d IH]; csimpl.
  - by intros [? ?].
  - destruct (decide (k0 = k)) as [->|Hne]; [done|].
    intros H. csimpl. by rewrite IH.
Qed.

Lemma keys_dict_set_new d k v :
  dict_get d k = None → keys (dict_set d k v) = keys d ++ [k].
Proof.
  unfold keys. induction d as [|[k0 v0] d IH]; csimpl; [done|].
  destruct (decide (k0 = k)) as [->|Hne]; [done|].
  intros H. csimpl. by rewrite IH.
Qed.

Lemma dict_get_None d k : dict_get d k = None ↔ k ∉ keys d.
Proof.
  unfold keys. induction d as [|[k0 v0] d IH]; csimpl.
  - split; [intros _; apply not_elem_of_nil | done].
  - rewrite not_elem_of_cons. destruct (decide (k0 = k)) as [->|Hne].
    + split; [done | by intros [? _]].
    + rewrite IH. split; [by intros ? | by intros [_ ?]].
Qed.

Lemma dict_get_Some_elem d k v : dict_get d k = Some v → (k, v) ∈ d.
Proof.
  induction d as [|[k0 v0] d IH]; simpl; [done|].
  destruct (decide (k0 = k)) as [->|Hne].
  - intros [= ->]. left.
  - intros H. right. auto.
Qed.

Lemma dict_elem_get d k v : dict_wf d → (k, v) ∈ d → dict_get d k = Some v.
Proof.
  unfold dict_wf, keys. induction d as [|[k0 v0] d IH]; csimpl.
  - by intros _ ?%elem_of_nil.
  - intros [Hk0 Hd]%NoDup_cons [[= -> ->]|Hin]%elem_of_cons.
    + by rewrite decide_True.
    + destruct (decide (k0 = k)) as [->|Hne]; [|auto].
      exfalso. apply Hk0. apply list_elem_of_fmap. by exists (k, v).
Qed.

Lemma dict_set_wf d k v : dict_wf d → dict_wf (dict_set d k v).
Proof.
  unfold dict_wf. intros Hd.
  destruct (dict_get d k) as [v0|] eqn:Hk.
  - by rewrite keys_dict_set_in.
  - rewrite keys_dict_set_new by done. apply NoDup_app. split_and!; [done| |].
    + intros x Hx ->%list_elem_of_singleton. by apply dict_get_None in Hk.
    + apply NoDup_singleton.
Qed.
End DictFacts.

(** ** The tally after the whole loop *)

Lemma label_count_cons line lines k :
  label_count (line :: lines) k =
  (if decide (label_of line = Some k) then 1 else 0) + label_count lines k.
Proof.
  unfold label_count. rewrite filter_cons.
  destruct (decide (label_of line = Some k)); simpl length; lia.
Qed.

Lemma label_count_nonneg lines k : 0 ≤ label_count lines k.
Proof. unfold label_count. lia. Qed.

Lemma count_subsystems_wf_from lines d :
  dict_wf d → dict_wf (fold_left count_subsystems_step lines d).
Proof.
  revert d. induction lines as [|line lines IH]; intros d Hd; simpl; [done|].
  apply IH. rewrite count_subsystems_step_label.
  destruct (label_of line); [by apply dict_set_wf | done].
Qed.

(** Loop invariant: the stored count of [k] is what it was plus the number
    of lines labelled [k] seen since, and a key is present exactly when it
    was present before or was seen. *)
Lemma count_subsystems_from lines d k :
  dict_get (fold_left count_subsystems_step lines d) k =
  match dict_get d k with
  | Some n => Some (n + label_count lines k)
  | None => if label_count lines k =? 0 then None else Some (label_count lines k)
  end.
Proof.
  revert d. induction lines as [|line lines IH]; intros d; simpl.
  - unfold label_count. simpl. destruct (dict_get d k); [f_equal; lia | done].
  - rewrite IH, count_subsystems_step_label, label_count_cons.
    pose proof (label_count_nonneg lines k).
    destruct (label_of line) as [sub|] eqn:Hl.
    + rewrite dict_get_set. destruct (decide (sub = k)) as [->|Hne].
      * rewrite decide_True by done.
        destruct (dict_get d k) as [n|]; simpl; [f_equal; lia|].
        destruct (Z.eqb_spec (1 + label_count lines k) 0); [lia|]. f_equal; lia.
      * rewrite decide_False by congruence. done.
    + rewrite decide_False by done. done.
Qed.

Lemma label_of_bracketed pre lab post :
  "["%char ∉ pre → "]"%char ∉ lab →
  label_of (pre ++ ("["%char :: lab) ++ ("]"%char :: post)) = Some lab.
Proof. intros Hpre Hlab. apply label_of_spec. by exists pre, post. Qed.

(** C1. For every list of lines, the tally holds, for each label, the
    number of lines whose first opening bracket is followed by a closing
    one and encloses that label with it (the label is the text between that
    first opening bracket and the first closing bracket after it), and has
    no entry for a label no line carries; its keys are unique.  Three lines
    whose first bracket pairs are [[A]], [[B]], [[A]] give {A: 2, B: 1}. *)
Theorem C1_subsystem_tally :
  (∀ line lab, label_of line = Some lab ↔ first_bracket_pair line lab)
  ∧ (∀ lines k,
       dict_get (count_subsystems lines) k =
       if label_count lines k =? 0 then None else Some (label_count lines k))
  ∧ (∀ lines, dict_wf (count_subsystems lines))
  ∧ (∀ p1 q1 p2 q2 p3 q3 : str,
       "["%char ∉ p1 → "["%char ∉ p2 → "["%char ∉ p3 →
       count_subsystems
         [p1 ++ lit "[A]" ++ q1; p2 ++ lit "[B]" ++ q2; p3 ++ lit "[A]" ++ q3]
       = [(lit "A", 2); (lit "B", 1)]).
Proof.
  split_and!.
  - apply label_of_spec.
  - intros lines k. unfold count_subsystems. by rewrite count_subsystems_from.
  - intros lines. apply count_subsystems_wf_from, NoDup_nil_2.
  - intros p1 q1 p2 q2 p3 q3 H1 H2 H3.
    assert (∀ (c : ascii) p q, c ≠ "]"%char → "["%char ∉ p →
              label_of (p ++ ("["%char :: [c]) ++ ("]"%char :: q)) = Some [c]) as Hl.
    { intros c p q Hc Hp. apply label_of_bracketed; [done|].
      intros Heq%list_elem_of_singleton. congruence. }
    unfold count_subsystems. cbn [fold_left].
    rewrite !count_subsystems_step_label.
    assert (∀ p q, "["%char ∉ p →
              label_of (p ++ lit "[A]" ++ q) = Some (lit "A")) as HA
      by (intros; by apply (Hl "A"%char)).
    assert (∀ p q, "["%char ∉ p →
              label_of (p ++ lit "[B]" ++ q) = Some (lit "B")) as HB
      by (intros; by apply (Hl "B"%char)).
    rewrite (HA p1), (HB p2), (HA p3) by done.
    reflexivity.
Qed.

(** The example of C1 on three concrete syslog lines. *)
Example count_subsystems_three_lines :
  count_subsystems
    [lit "2024-01-01 00:00:00.000 host proc[A] one";
     lit "2024-01-01 00:00:01.000 host proc[B] two";
     lit "no timestamp [A] three [C]"]
  = [(lit "A", 2); (lit "B", 1)].
Proof. vm_compute. reflexivity. Qed.

(** ** Time range and line count *)

Section FilterFacts.
Context {A : Type} (P : A → Prop) `{!∀ x, Decision (P x)}.

Lemma filter_nil_Forall (l : list A) : filter P l = [] ↔ Forall (λ x, ¬ P x) l.
Proof.
  induction l as [|x l IH]; [by split; [constructor|]|].
  rewrite filter_cons, Forall_cons. destruct (decide (P x)); [|rewrite IH].
  - split; [done | by intros [? _]].
  - split; [by intros ? | by intros [_ ?]].
Qed.

(** The head of the filtered list is the first element that passes. *)
Lemma filter_head_split (l : list A) x r :
  filter P l = x :: r →
  ∃ pre suf, l = pre ++ x :: suf ∧ Forall (λ y, ¬ P y) pre ∧ P x.
Proof.
  induction l as [|y l IH]; [done|].
  rewrite filter_cons. destruct (decide (P y)) as [Hy|Hy].
  - intros [= -> <-]. exists [], l. by repeat split.
  - intros (pre & suf & -> & Hpre & Hx)%IH.
    exists (y :: pre), suf. repeat split; [by constructor | done].
Qed.

(** The last element of the filtered list is the last one that passes. *)
Lemma filter_last_split (l : list A) r x :
  filter P l = r ++ [x] →
  ∃ pre suf, l = pre ++ x :: suf ∧ Forall (λ y, ¬ P y) suf ∧ P x.
Proof.
  induction l as [|y l IH] using rev_ind; [by destruct r|].
  rewrite filter_app, (filter_cons _ y), (filter_nil P).
  destruct (decide (P y)) as [Hy|Hy].
  - intros [_ [= ->]]%app_inj_tail. exists l, []. by repeat split.
  - rewrite app_nil_r. intros (pre & suf & -> & Hsuf & Hx)%IH.
    exists pre, (suf ++ [y]). rewrite <- app_assoc. repeat split; [|done].
    apply Forall_app. split; [done|]. by repeat constructor.
Qed.
End FilterFacts.

Lemma List_last_snoc {A} (l : list A) x d : List.last (l ++ [x]) d = x.
Proof. apply List.last_last. Qed.

Lemma nonempty_snoc {A} (x : A) l : ∃ r y, x :: l = r ++ [y].
Proof.
  destruct (exists_last (l := x :: l)) as (r & y & E); [done|]. eauto.
Qed.

(** C4. For every list of lines, [get_time_range] keeps the lines whose
    first character is a digit; when none is left it reports that no valid
    line was found and returns the pair [(None, None)], and otherwise it
    returns the first and the last of the lines kept, in that order: the
    first line of the input that starts with a digit and the last one that
    does. *)
Theorem C4_get_time_range (lines : list str) :
  let valid := filter (λ l, starts_with_digit l = true) lines in
  get_time_range lines = (head valid, last valid)
  ∧ ((valid = []
      ∧ Forall (λ l, starts_with_digit l ≠ true) lines
      ∧ get_time_range lines = (None, None)
      ∧ get_time_range_io lines = ([Print InfoNoValidLines], Ok (None, None)))
     ∨ (∃ first last_ pre suf pre' suf',
          get_time_range lines = (Some first, Some last_)
          ∧ get_time_range_io lines = ([], Ok (Some first, Some last_))
          ∧ lines = pre ++ first :: suf
          ∧ Forall (λ l, starts_with_digit l ≠ true) pre
          ∧ starts_with_digit first = true
          ∧ lines = pre' ++ last_ :: suf'
          ∧ Forall (λ l, starts_with_digit l ≠ true) suf'
          ∧ starts_with_digit last_ = true)).
Proof.
  intros valid. unfold get_time_range_io, get_time_range. fold valid.
  destruct valid as [|x r] eqn:Hv.
  - split; [done|]. left. split_and!; [done| |done|done].
    by apply filter_nil_Forall in Hv.
  - destruct (nonempty_snoc x r) as (r' & y & Hxy).
    assert (List.last (x :: r) x = y) as -> by (rewrite Hxy; apply List_last_snoc).
    assert (last (x :: r) = Some y) as -> by (rewrite Hxy; apply last_snoc).
    split; [done|]. right.
    pose proof Hv as (pre & suf & -> & Hpre & Hx)%filter_head_split.
    rewrite Hxy in Hv.
    pose proof Hv as (pre' & suf' & E & Hsuf & Hy)%filter_last_split.
    exists x, y, pre, suf, pre', suf'. by split_and!.
Qed.

(** C10. For every list of lines, [get_time_range] returns a pair of lines
    (neither component [None]) exactly when [count_lines] is positive;
    both use the same filter.  The lines it returns are not empty, so the
    test of [main] that prints the missing-timestamps error fires exactly
    when the count is zero. *)
Theorem C10_time_range_iff_count (lines : list str) :
  ((∃ first last_, get_time_range lines = (Some first, Some last_))
   ↔ 0 < count_lines lines)
  ∧ (get_time_range lines = (None, None) ↔ count_lines lines = 0)
  ∧ (let '(start_line, end_line) := get_time_range lines in
     negb (truthy start_line) || negb (truthy end_line) = true
     ↔ count_lines lines = 0).
Proof.
  unfold get_time_range, count_lines.
  destruct (filter (λ l, starts_with_digit l = true) lines) as [|x r] eqn:Hv.
  - simpl. split_and!.
    + split; [by intros (? & ? & ?) | lia].
    + done.
    + done.
  - assert (truthy (Some x) = true) as Hx.
    { assert (x ∈ x :: r) as Hin by left. rewrite <- Hv in Hin.
      apply list_elem_of_filter in Hin as [Hd _]. by destruct x. }
    assert (truthy (Some (List.last (x :: r) x)) = true) as Hy.
    { destruct (nonempty_snoc x r) as (r' & y & Hxy).
      rewrite Hxy, List_last_snoc.
      assert (y ∈ x :: r) as Hin by (rewrite Hxy, elem_of_app; right; left).
      rewrite <- Hv in Hin.
      apply list_elem_of_filter in Hin as [Hd _]. by destruct y. }
    rewrite Hx, Hy. simpl length. split_and!.
    + split; [lia | eauto].
    + split; [done | lia].
    + simpl. split; [done | lia].
Qed.

(** ** The driver *)

Lemma locate_invalid w input :
  endswith input (lit ".tar.gz") = false →
  w_isdir w input = false →
  locate w input = ([Print ErrInvalidInput], Ok None).
Proof.
  intros H1 H2. unfold locate. rewrite H1, H2, andb_false_r. reflexivity.
Qed.

(** C7. For every input path that does not end with [.tar.gz], is not a
    directory ending with [.logarchive], and is not a directory, the run
    prints the invalid-input error, does nothing else, and writes no file. *)
Theorem C7_invalid_input float_repr (w : World) (input : str) :
  endswith input (lit ".tar.gz") = false →
  endswith input (lit ".logarchive") && w_isdir w input = false →
  w_isdir w input = false →
  main float_repr w input = ([Print ErrInvalidInput], Ok tt)
  ∧ files_written (main float_repr w input).1 = []
  ∧ error_text ErrInvalidInput
    = Some (lit "[ERROR] Invalid input: must be .logarchive, directory, or .tar.gz").
Proof.
  intros H1 _ H3. unfold main. rewrite (locate_invalid w input H1 H3).
  by split_and!.
Qed.

(** ** The archive locator *)

Lemma find_in_dirs_None w root dirs :
  find_in_dirs w root dirs = None ↔
  Forall (λ d, is_logarchive w (root, d) = false) dirs.
Proof.
  unfold is_logarchive. induction dirs as [|d dirs IH]; simpl.
  - split; [constructor | done].
  - rewrite Forall_cons, <- IH. simpl.
    destruct (endswith d (lit ".logarchive")); simpl;
      [|split; [by intros ? | by intros [_ ?]]].
    destruct (w_isdir w _); [|split; [by intros ? | by intros [_ ?]]].
    split; [done | by intros [? _]].
Qed.

Lemma find_in_dirs_Some w root dirs p :
  find_in_dirs w root dirs = Some p →
  ∃ pre d post,
    dirs = pre ++ d :: post
    ∧ Forall (λ d, is_logarchive w (root, d) = false) pre
    ∧ is_logarchive w (root, d) = true
    ∧ p = path_join root d.
Proof.
  unfold is_logarchive. induction dirs as [|d dirs IH]; simpl; [done|].
  destruct (endswith d (lit ".logarchive")) eqn:He; simpl.
  - destruct (w_isdir w _) eqn:Hd.
    + intros [= <-]. exists [], d, dirs. simpl. rewrite He, Hd. by split_and!.
    + intros (pre & d' & post & -> & Hpre & Hd' & ->)%IH.
      exists (d :: pre), d', post. split_and!; [done | | done | done].
      constructor; [|done]. simpl. by rewrite He, Hd.
  - intros (pre & d' & post & -> & Hpre & Hd' & ->)%IH.
    exists (d :: pre), d', post. split_and!; [done | | done | done].
    constructor; [|done]. simpl. by rewrite He.
Qed.

Lemma find_in_walk_None w walk :
  find_in_walk w walk = None ↔
  Forall (λ rd, is_logarchive w rd = false) (walk_dirs walk).
Proof.
  unfold walk_dirs. induction walk as [|[[root dirs] files] walk IH]; simpl.
  - split; [constructor | done].
  - rewrite Forall_app, <- IH, Forall_map.
    destruct (find_in_dirs w root dirs) as [p|] eqn:Hf.
    + split; [done|]. intros [Hall _]. apply find_in_dirs_None in Hall. congruence.
    + apply find_in_dirs_None in Hf. split; [by intros ? | by intros [_ ?]].
Qed.

Lemma find_in_walk_Some w walk p :
  find_in_walk w walk = Some p →
  ∃ pre root d post,
    walk_dirs walk = pre ++ (root, d) :: post
    ∧ Forall (λ rd, is_logarchive w rd = false) pre
    ∧ is_logarchive w (root, d) = true
    ∧ p = path_join root d.
Proof.
  unfold walk_dirs. induction walk as [|[[root dirs] files] walk IH]; simpl; [done|].
  destruct (find_in_dirs w root dirs) as [q|] eqn:Hf.
  - intros [= ->].
    apply find_in_dirs_Some in Hf as (pre & d & post & -> & Hpre & Hd & ->).
    exists (map (λ d, (root, d)) pre), root, d,
      (map (λ d, (root, d)) post ++
       flat_map (λ '(root, dirs, _), map (λ d, (root, d)) dirs) walk).
    split_and!; [| | done | done].
    + rewrite map_app. simpl. by rewrite <- app_assoc.
    + by apply Forall_map.
  - intros (pre & root' & d & post & E & Hpre & Hd & ->)%IH.
    apply find_in_dirs_None in Hf.
    exists (map (λ d, (root, d)) dirs ++ pre), root', d, post.
    split_and!; [| | done | done].
    + rewrite E. by rewrite <- app_assoc.
    + apply Forall_app. split; [by apply Forall_map | done].
Qed.

Lemma endswith_nonempty s suf : suf ≠ [] → endswith s suf = true → s ≠ [].
Proof.
  unfold endswith. intros Hsuf [Hlen _]%andb_true_iff ->.
  apply Nat.leb_le in Hlen. destruct suf; [done | simpl in Hlen; lia].
Qed.

Lemma path_join_nonempty a b : b ≠ [] → path_join a b ≠ [].
Proof.
  unfold path_join. intros Hb.
  destruct b as [|c b]; [done|].
  destruct (decide (c = "/"%char)) as [->|Hc]; [done|].
  assert (∀ x : str, x ++ c :: b ≠ []) as Happ by (by intros []).
  assert (match c with "/"%char => c :: b | _ =>
            if bool_decide (a = []) || endswith a (lit "/") then a ++ c :: b
            else a ++ lit "/" ++ c :: b end
          = if bool_decide (a = []) || endswith a (lit "/") then a ++ c :: b
            else a ++ lit "/" ++ c :: b) as ->.
  { destruct c as [[] [] [] [] [] [] [] []]; done. }
  destruct (_ || _); [apply Happ|]. by destruct a.
Qed.

(** What the search finds is never the empty string. *)
Lemma find_logarchive_truthy w base p :
  find_logarchive_in_directory w base = Some p → truthy (Some p) = true.
Proof.
  intros (pre & root & d & post & _ & _ & Hd & ->)%find_in_walk_Some.
  unfold is_logarchive in Hd. apply andb_true_iff in Hd as [He _].
  simpl. rewrite bool_decide_eq_false_2; [done|].
  apply path_join_nonempty. by apply (endswith_nonempty _ (lit ".logarchive")).
Qed.

(** On a [.tar.gz] input the locator goes on exactly when the search found
    a directory: the test [if not path] is a test for [None]. *)
Lemma locate_tar_gz w input temp_dir :
  endswith input (lit ".tar.gz") = true →
  w_extract w input = Some temp_dir →
  locate w input
  = match find_logarchive_in_directory w temp_dir with
    | None => ([Print (InfoExtracted temp_dir); Print ErrNoLogarchiveInSysdiagnose],
               Ok None)
    | Some p => ([Print (InfoExtracted temp_dir)], Ok (Some (p, Some temp_dir)))
    end.
Proof.
  intros Hend Hex. unfold locate, extract_tar_gz. rewrite Hend, Hex.
  destruct (find_logarchive_in_directory w temp_dir) as [p|] eqn:Hfind.
  - simpl. rewrite Hfind, (find_logarchive_truthy w temp_dir p Hfind). reflexivity.
  - simpl. rewrite Hfind. reflexivity.
Qed.

(** C8. The search of the archive locator returns [None], and then no
    subdirectory of the walk is named like a logarchive and holds
    [Persist], or the first subdirectory in the order of the walk that is
    and does, joined to its root.  When it returns [None] on the directory a
    [.tar.gz] input was extracted to, the run prints the error that no
    logarchive was found and does nothing more. *)
Theorem C8_find_logarchive float_repr (w : World) :
  (∀ base,
     (find_logarchive_in_directory w base = None
      ∧ Forall (λ rd, is_logarchive w rd = false) (walk_dirs (w_walk w base)))
     ∨ (∃ pre root d post,
          find_logarchive_in_directory w base = Some (path_join root d)
          ∧ walk_dirs (w_walk w base) = pre ++ (root, d) :: post
          ∧ Forall (λ rd, is_logarchive w rd = false) pre
          ∧ endswith d (lit ".logarchive") = true
          ∧ w_isdir w (path_join (path_join root d) (lit "Persist")) = true))
  ∧ (∀ input temp_dir,
       endswith input (lit ".tar.gz") = true →
       w_extract w input = Some temp_dir →
       find_logarchive_in_directory w temp_dir = None →
       main float_repr w input
       = ([Print (InfoExtracted temp_dir); Print ErrNoLogarchiveInSysdiagnose], Ok tt)
         ∧ error_text ErrNoLogarchiveInSysdiagnose
           = Some (lit "[ERROR] No .logarchive found in sysdiagnose.")).
Proof.
  split.
  - intros base. unfold find_logarchive_in_directory.
    destruct (find_in_walk w (w_walk w base)) as [p|] eqn:Hf.
    + right. apply find_in_walk_Some in Hf as (pre & root & d & post & E & Hpre & Hd & ->).
      exists pre, root, d, post. unfold is_logarchive in Hd.
      apply andb_true_iff in Hd as [He Hp]. by split_and!.
    + left. split; [done|]. by apply find_in_walk_None.
  - intros input temp_dir Hend Hex Hfind. split; [|done].
    unfold main. rewrite (locate_tar_gz w input temp_dir Hend Hex), Hfind.
    reflexivity.
Qed.

(** ** Runs that stop early *)

(** Unfolds the sequencing of [M] once its first computation is known. *)
Ltac run_bind :=
  unfold mbind, M_bind, ret, raise, print, emit; cbn [bind app fst snd].

Lemma files_written_app t1 t2 :
  files_written (t1 ++ t2) = files_written t1 ++ files_written t2.
Proof. apply omap_app. Qed.

(** Locating the archive writes no file. *)
Lemma locate_writes_nothing w input : files_written (locate w input).1 = [].
Proof.
  unfold locate, extract_tar_gz.
  destruct (endswith input (lit ".tar.gz")).
  - destruct (w_extract w input) as [temp|]; [|done]. simpl.
    by destruct (truthy (find_logarchive_in_directory w temp)).
  - destruct (endswith input (lit ".logarchive") && w_isdir w input); [done|].
    destruct (w_isdir w input); [|done].
    by destruct (truthy (find_logarchive_in_directory w input)).
Qed.

(** Rendering the log writes no file, and a timeout gives no line. *)
Lemma extract_log_output_writes_nothing w path :
  files_written (extract_log_output w path).1 = [].
Proof. unfold extract_log_output. by destruct (w_log_show w path). Qed.

Lemma extract_log_output_timeout w path :
  w_log_show w path = TimeoutExpired →
  extract_log_output w path
  = ([Print (InfoExtracting path); Print (ErrTimeout path)], Ok []).
Proof. intros H. unfold extract_log_output. by rewrite H. Qed.

Lemma get_dir_size_kb_silent w path : (get_dir_size_kb w path).1 = [].
Proof. unfold get_dir_size_kb. by destruct (int_truediv _ _). Qed.

(** C6. When the renderer returns no line, the run prints the error that
    no log output was returned, stops there and has written no file; a
    timeout of the tool is such a case: it is reported and gives the empty
    list of lines. *)
Theorem C6_empty_output_aborts float_repr (w : World) (input path : str)
    (temp_dir : option str) (located rendered : list event) (size_kb : float) :
  locate w input = (located, Ok (Some (path, temp_dir))) →
  (get_dir_size_kb w path).2 = Ok size_kb →
  extract_log_output w path = (rendered, Ok []) →
  main float_repr w input
  = (located ++ rendered ++ [Print ErrNoLogOutput], Ok tt)
  ∧ files_written (main float_repr w input).1 = []
  ∧ error_text ErrNoLogOutput = Some (lit "[ERROR] No valid log output returned.")
  ∧ (w_log_show w path = TimeoutExpired →
     rendered = [Print (InfoExtracting path); Print (ErrTimeout path)]).
Proof.
  intros Hloc Hsize Hout.
  assert (main float_repr w input
          = (located ++ rendered ++ [Print ErrNoLogOutput], Ok tt)) as Hmain.
  { unfold main. rewrite Hloc. run_bind. unfold analyse. run_bind.
    pose proof (get_dir_size_kb_silent w path) as Hsilent.
    destruct (get_dir_size_kb w path) as [ts rs]. simpl in Hsize, Hsilent.
    subst ts rs. run_bind. rewrite Hout. run_bind.
    rewrite bool_decide_eq_true_2 by done. reflexivity. }
  split_and!; [done | | done |].
  - rewrite Hmain. simpl. rewrite !files_written_app.
    pose proof (locate_writes_nothing w input) as H1. rewrite Hloc in H1.
    pose proof (extract_log_output_writes_nothing w path) as H2. rewrite Hout in H2.
    simpl in H1, H2. by rewrite H1, H2.
  - intros Ht. rewrite (extract_log_output_timeout _ _ Ht) in Hout. congruence.
Qed.

(** ** Sorting by decreasing key *)

Section SortedDesc.
Context {A : Type} (key : A → Z).

Lemma insert_desc_perm x l : insert_desc key x l ≡ₚ x :: l.
Proof.
  induction l as [|y r IH]; simpl; [done|].
  destruct (key x <? key y); [|done].
  by rewrite IH, Permutation_swap.
Qed.

Lemma sorted_desc_perm l : sorted_desc key l ≡ₚ l.
Proof.
  induction l as [|x l IH]; simpl; [done|].
  by rewrite insert_desc_perm, IH.
Qed.

Lemma insert_desc_sorted x l :
  StronglySorted (desc key) l → StronglySorted (desc key) (insert_desc key x l).
Proof.
  induction l as [|y r IH]; simpl; intros Hs.
  - repeat constructor.
  - apply StronglySorted_cons in Hs as [Hy Hr].
    destruct (Z.ltb_spec (key x) (key y)) as [Hlt|Hge].
    + apply StronglySorted_cons. split; [|by apply IH].
      rewrite insert_desc_perm. constructor; [unfold desc; lia | done].
    + apply StronglySorted_cons. split; [|by apply StronglySorted_cons].
      constructor; [done|].
      eapply Forall_impl; [exact Hy|]. unfold desc. intros z Hz. lia.
Qed.

Lemma sorted_desc_sorted l : StronglySorted (desc key) (sorted_desc key l).
Proof.
  induction l as [|x l IH]; simpl; [constructor|].
  by apply insert_desc_sorted.
Qed.

(** The sort is stable: elements of equal key keep their order. *)
Lemma insert_desc_stable x l c :
  filter (λ y, key y = c) (insert_desc key x l) = filter (λ y, key y = c) (x :: l).
Proof.
  induction l as [|y r IH]; simpl; [done|].
  destruct (Z.ltb_spec (key x) (key y)) as [Hlt|Hge]; [|done].
  rewrite (filter_cons _ y), IH, !filter_cons.
  destruct (decide (key y = c)), (decide (key x = c)); try done; lia.
Qed.

Lemma sorted_desc_stable l c :
  filter (λ y, key y = c) (sorted_desc key l) = filter (λ y, key y = c) l.
Proof.
  induction l as [|x l IH]; simpl; [done|].
  by rewrite insert_desc_stable, !filter_cons, IH.
Qed.
End SortedDesc.

(** ** The second section of the report *)

Lemma subsystem_rows_items (subsystems : dict Z) :
  dict_wf subsystems →
  (λ sub, [CStr sub; CInt (count_of subsystems sub)]) <$> keys subsystems
  = row_of_item <$> subsystems.
Proof.
  intros Hwf. unfold keys. rewrite <- list_fmap_compose.
  apply list_fmap_ext. intros j [k v] Hj. simpl. unfold row_of_item, count_of.
  simpl. by rewrite (dict_elem_get subsystems k v Hwf (list_elem_of_lookup_2 _ _ _ Hj)).
Qed.

Lemma subsystem_rows_sorted (subsystems : dict Z) :
  StronglySorted (desc row_count) (subsystem_rows subsystems).
Proof.
  unfold subsystem_rows.
  pose proof (sorted_desc_sorted (count_of subsystems) (keys subsystems)) as Hs.
  induction Hs as [|x l Hl IH Hx]; csimpl; constructor; [done|].
  apply Forall_fmap. eapply Forall_impl; [exact Hx|]. done.
Qed.

(** C5. In the rows [generate_csv] writes, the second section (what
    follows the twelve rows of the first section, the blank row and the
    header) lists every entry of the tally once, as a row of its label
    and its count, and the counts never increase from one row to the next. *)
Theorem C5_subsystem_section (i : info) :
  dict_wf (info_subsystems i) →
  let rows := drop 14 (report_rows i) in
  take 14 (report_rows i)
  = scalar_rows i ++ [ []; [CStr (lit "Subsystem"); CStr (lit "Event Count")] ]
  ∧ rows ≡ₚ row_of_item <$> info_subsystems i
  ∧ NoDup rows
  ∧ StronglySorted (desc row_count) rows.
Proof.
  intros Hwf rows.
  assert (rows = subsystem_rows (info_subsystems i)) as -> by done.
  assert (subsystem_rows (info_subsystems i) ≡ₚ row_of_item <$> info_subsystems i)
    as Hperm.
  { unfold subsystem_rows. rewrite sorted_desc_perm.
    by rewrite subsystem_rows_items. }
  split_and!; [done | done | | apply subsystem_rows_sorted].
  rewrite Hperm. apply (NoDup_fmap_1 (λ r, match r with CStr s :: _ => s | _ => [] end)).
  rewrite <- list_fmap_compose. exact Hwf.
Qed.

(** ** Runs that write the report *)

Lemma bind_trace {A B} (m : M A) (f : A → M B) :
  (m ≫= f).1 = m.1 ++ match m.2 with Ok a => (f a).1 | Raised _ => [] end.
Proof.
  unfold mbind, M_bind, bind. destruct m as [t [a|e]]; simpl.
  - by destruct (f a).
  - by rewrite app_nil_r.
Qed.

Lemma files_written_bind {A B} (m : M A) (f : A → M B) :
  files_written (m ≫= f).1
  = files_written m.1
    ++ match m.2 with Ok a => files_written (f a).1 | Raised _ => [] end.
Proof. rewrite bind_trace, files_written_app. by destruct (m.2). Qed.

Lemma parse_time_writes_nothing w t : files_written (parse_time w t).1 = [].
Proof.
  unfold parse_time. destruct (w_dateutil w) as [parse|].
  - by destruct (parse t).
  - by destruct (w_strptime w (before_plus t)).
Qed.

Lemma compute_ttl_writes_nothing w s e : files_written (compute_ttl w s e).1 = [].
Proof.
  unfold compute_ttl, first_token_or_raise, ttl_minutes.
  rewrite !files_written_bind.
  destruct (first_token e) as [etok|]; [|done]. simpl.
  rewrite files_written_bind, parse_time_writes_nothing. simpl.
  destruct (parse_time w etok).2 as [de|]; [|done].
  rewrite files_written_bind. destruct (first_token s) as [stok|]; [|done]. simpl.
  rewrite files_written_bind, parse_time_writes_nothing. simpl.
  destruct (parse_time w stok).2 as [ds|]; [|done].
  destruct (datetime_sub de ds) as [micros|]; [|done].
  by destruct (total_seconds micros).
Qed.

Lemma cleanup_writes_nothing w temp_dir : files_written (cleanup w temp_dir).1 = [].
Proof.
  unfold cleanup. destruct (truthy temp_dir); [|done].
  rewrite files_written_bind. simpl. by destruct (bool_decide _).
Qed.

Lemma get_time_range_io_result lines :
  (get_time_range_io lines).2 = Ok (get_time_range lines)
  ∧ files_written (get_time_range_io lines).1 = [].
Proof.
  unfold get_time_range_io. by destruct (get_time_range lines) as [[s|] e].
Qed.

(** A file the analysis wrote is the report of the lines the renderer
    returned. *)
Lemma analyse_files_written float_repr w path temp_dir file content :
  (file, content) ∈ files_written (analyse float_repr w path temp_dir).1 →
  ∃ size_kb log_lines start_line end_line ttl,
    (get_dir_size_kb w path).2 = Ok size_kb
    ∧ (extract_log_output w path).2 = Ok log_lines
    ∧ get_time_range log_lines = (Some start_line, Some end_line)
    ∧ (compute_ttl w start_line end_line).2 = Ok ttl
    ∧ file = lit "log_report_" ++ w_now w ++ lit ".csv"
    ∧ content = csv_text float_repr
                  (report_rows (report_info path size_kb log_lines
                                            start_line end_line ttl)).
Proof.
  unfold analyse. rewrite files_written_bind, get_dir_size_kb_silent. simpl.
  destruct (get_dir_size_kb w path).2 as [size_kb|]; [|by intros ?%elem_of_nil].
  rewrite files_written_bind, extract_log_output_writes_nothing. simpl.
  destruct (extract_log_output w path).2 as [log_lines|]; [|by intros ?%elem_of_nil].
  destruct (bool_decide (log_lines = [])); [by intros ?%elem_of_nil|].
  rewrite files_written_bind.
  destruct (get_time_range_io_result log_lines) as [-> ->]. simpl.
  destruct (get_time_range log_lines) as [start_line end_line] eqn:Hrange.
  destruct (negb (truthy start_line) || negb (truthy end_line)) eqn:Hno;
    [by intros ?%elem_of_nil|].
  apply orb_false_iff in Hno as [Hs He].
  destruct start_line as [start_line|]; [|done].
  destruct end_line as [end_line|]; [|done]. simpl.
  rewrite files_written_bind, compute_ttl_writes_nothing. simpl.
  destruct (compute_ttl w start_line end_line).2 as [ttl|] eqn:Httl;
    [|by intros ?%elem_of_nil].
  rewrite files_written_bind. unfold generate_csv at 1 2.
  destruct (w_writable w _); [|by intros ?%elem_of_nil].
  rewrite bind_trace. simpl. rewrite cleanup_writes_nothing.
  intros [= -> ->]%list_elem_of_singleton.
  exists size_kb, log_lines, start_line, end_line, ttl. by split_and!.
Qed.

Lemma main_files_written float_repr w input file content :
  (file, content) ∈ files_written (main float_repr w input).1 →
  ∃ located path temp_dir,
    locate w input = (located, Ok (Some (path, temp_dir)))
    ∧ (file, content) ∈ files_written (analyse float_repr w path temp_dir).1.
Proof.
  unfold main. rewrite files_written_bind, locate_writes_nothing. simpl.
  destruct (locate w input) as [located [[[path temp_dir]|]|]] eqn:Hloc; simpl;
    [|by intros ?%elem_of_nil..].
  intros Hin. by exists located, path, temp_dir.
Qed.

Lemma count_lines_perm lines ds ns :
  lines ≡ₚ ds ++ ns →
  Forall (λ l, starts_with_digit l = true) ds →
  Forall (λ l, starts_with_digit l ≠ true) ns →
  count_lines lines = Z.of_nat (length ds).
Proof.
  intros Hperm Hds Hns. unfold count_lines. rewrite Hperm, filter_app.
  apply (filter_nil_Forall (λ l, starts_with_digit l = true)) in Hns.
  rewrite Hns, app_nil_r.
  f_equal. f_equal. clear Hperm Hns.
  induction Hds as [|d ds Hd _ IH]; [done|].
  by rewrite filter_cons, decide_True, IH.
Qed.

(** C2. For every list made of N lines whose first character is a digit
    and M lines that do not start with a digit, in any order,
    [count_lines] returns N.  The row of the report called
    [Total Events] shows the [lines] entry of [info], and in every report
    [main] writes that entry is [count_lines] of the lines the renderer
    returned. *)
Theorem C2_count_lines_total_events float_repr :
  (∀ lines ds ns : list str,
     lines ≡ₚ ds ++ ns →
     Forall (λ l, starts_with_digit l = true) ds →
     Forall (λ l, starts_with_digit l ≠ true) ns →
     count_lines lines = Z.of_nat (length ds))
  ∧ (∀ i : info,
       report_rows i !! 10%nat
       = Some [CStr (lit "Total Events"); CInt (info_lines i)])
  ∧ (∀ (w : World) (input file content : str),
       (file, content) ∈ files_written (main float_repr w input).1 →
       ∃ located path temp_dir log_lines i,
         locate w input = (located, Ok (Some (path, temp_dir)))
         ∧ (extract_log_output w path).2 = Ok log_lines
         ∧ info_lines i = count_lines log_lines
         ∧ content = csv_text float_repr (report_rows i)).
Proof.
  split_and!.
  - apply count_lines_perm.
  - done.
  - intros w input file content
      (located & path & temp_dir & Hloc & Hin)%main_files_written.
    apply analyse_files_written in Hin
      as (size_kb & log_lines & start_line & end_line & ttl
          & _ & Hout & _ & _ & _ & ->).
    exists located, path, temp_dir, log_lines,
      (report_info path size_kb log_lines start_line end_line ttl).
    by split_and!.
Qed.


(** ** The time to live *)

(** On two parsed timestamps ninety minutes apart the arithmetic gives
    90.0 minutes, and the report derives 1.5 hours and 0.06 days. *)
Lemma ttl_minutes_ninety (e s : datetime) :
  datetime_sub e s = Some 5400000000 →
  ttl_minutes e s = ([], Ok float_90)
  ∧ round2 (float_div_int float_90 60) = float_1_5
  ∧ round2 (float_div_int float_1_5 24) = float_0_06.
Proof.
  intros H. unfold ttl_minutes. rewrite H. split_and!; by vm_compute.
Qed.

Lemma datetime_sub_self d : datetime_sub d d = Some 0.
Proof.
  unfold datetime_sub. destruct (dt_utcoffset d); f_equal; lia.
Qed.

Lemma ttl_minutes_self d : ttl_minutes d d = ([], Ok (S754_zero false)).
Proof. unfold ttl_minutes. by rewrite datetime_sub_self. Qed.

Lemma sample_lines_tokens :
  first_token sample_first_line = Some (lit "2024-01-01")
  ∧ first_token sample_last_line = Some (lit "2024-01-01").
Proof. split; by vm_compute. Qed.

(** C3, on the code.  For a first line stamped 2024-01-01 00:00:00.000
    and a last line stamped 2024-01-01 01:30:00.000, [main] parses the
    first token of each line, which is the date alone for both; whatever
    the parser, the time to live it computes is 0.0 minutes or the parser
    raises, and it is never 90.0. *)
Theorem C3_ttl_uses_date_only (w : World) :
  first_token sample_first_line = first_token sample_last_line
  ∧ ((compute_ttl w sample_first_line sample_last_line).2 = Ok (S754_zero false)
     ∨ (compute_ttl w sample_first_line sample_last_line).2
       = Raised (ParseError (lit "2024-01-01")))
  ∧ (compute_ttl w sample_first_line sample_last_line).2 ≠ Ok float_90.
Proof.
  destruct sample_lines_tokens as [H1 H2].
  assert ((compute_ttl w sample_first_line sample_last_line).2 = Ok (S754_zero false)
     ∨ (compute_ttl w sample_first_line sample_last_line).2
       = Raised (ParseError (lit "2024-01-01"))) as Hcases.
  { unfold compute_ttl, first_token_or_raise. rewrite H1, H2. run_bind.
    unfold parse_time. destruct (w_dateutil w) as [parse|].
    - destruct (parse (lit "2024-01-01")) as [d|]; [|by right].
      run_bind. rewrite ttl_minutes_self. by left.
    - destruct (w_strptime w (before_plus (lit "2024-01-01"))) as [d|]; [|by right].
      run_bind. rewrite ttl_minutes_self. by left. }
  split_and!; [by rewrite H1, H2 | done |].
  destruct Hcases as [-> | ->]; discriminate.
Qed.

(** ** The properties on the sample world *)

(** The report [main] writes for the sample archive, whose first and last
    line are ninety minutes apart, shows a time to live of 0.0 minutes. *)
Example main_sample_report_ttl :
  files_written (main demo_float_repr demo_world (lit "/logs/system.logarchive")).1
  = [(lit "log_report_20240102_120000.csv",
      csv_text demo_float_repr
        (report_rows
           (report_info (lit "/logs/system.logarchive")
              (S754_finite false 8483655798059172 (-46))
              (splitlines demo_stdout) sample_first_line sample_last_line
              (S754_zero false))))].
Proof. by vm_compute. Qed.

(** C5 on the tally of three labels. *)
Lemma C5_subsystem_section_witness :
  drop 14 (report_rows demo_info)
  = [ [CStr (lit "A"); CInt 2]; [CStr (lit "C"); CInt 2]; [CStr (lit "B"); CInt 1] ]
  ∧ StronglySorted (desc row_count) (drop 14 (report_rows demo_info)).
Proof.
  split; [by vm_compute|].
  apply (C5_subsystem_section demo_info).
  unfold dict_wf. apply (bool_decide_unpack _). by vm_compute.
Defined.

(** C6 on the archive whose rendering times out. *)
Lemma C6_empty_output_aborts_witness :
  main demo_float_repr demo_world (lit "/logs/slow.logarchive")
  = ([Print (InfoDetected (lit "/logs/slow.logarchive"));
      Print (InfoExtracting (lit "/logs/slow.logarchive"));
      Print (ErrTimeout (lit "/logs/slow.logarchive"));
      Print ErrNoLogOutput], Ok tt)
  ∧ files_written
      (main demo_float_repr demo_world (lit "/logs/slow.logarchive")).1 = [].
Proof.
  pose proof (C6_empty_output_aborts demo_float_repr demo_world
                (lit "/logs/slow.logarchive") (lit "/logs/slow.logarchive") None
                [Print (InfoDetected (lit "/logs/slow.logarchive"))]
                [Print (InfoExtracting (lit "/logs/slow.logarchive"));
                 Print (ErrTimeout (lit "/logs/slow.logarchive"))]
                (S754_zero false) eq_refl eq_refl eq_refl) as (H1 & H2 & _).
  split; [exact H1 | exact H2].
Defined.

(** C7 on a plain file. *)
Lemma C7_invalid_input_witness :
  main demo_float_repr demo_world (lit "/in/notes.txt")
  = ([Print ErrInvalidInput], Ok tt).
Proof.
  exact (proj1 (C7_invalid_input demo_float_repr demo_world (lit "/in/notes.txt")
                  eq_refl eq_refl eq_refl)).
Defined.

(** C8 on the bundle that holds no logarchive. *)
Lemma C8_find_logarchive_witness :
  find_logarchive_in_directory demo_world (lit "/tmp/sysdiag_extract_e") = None
  ∧ main demo_float_repr demo_world (lit "/in/empty.tar.gz")
    = ([Print (InfoExtracted (lit "/tmp/sysdiag_extract_e"));
        Print ErrNoLogarchiveInSysdiagnose], Ok tt).
Proof.
  split; [reflexivity|].
  exact (proj1 (proj2 (C8_find_logarchive demo_float_repr demo_world)
                  (lit "/in/empty.tar.gz") (lit "/tmp/sysdiag_extract_e")
                  eq_refl eq_refl eq_refl)).
Defined.

(** C2 on the archive that renders: two stamped lines out of three. *)
Lemma C2_count_lines_total_events_witness :
  count_lines (splitlines demo_stdout) = 2
  ∧ ∃ content i,
      files_written
        (main demo_float_repr demo_world (lit "/logs/system.logarchive")).1
      = [(lit "log_report_20240102_120000.csv", content)]
      ∧ content = csv_text demo_float_repr (report_rows i)
      ∧ report_rows i !! 10%nat = Some [CStr (lit "Total Events"); CInt 2].
Proof.
  split; [reflexivity|].
  destruct (C2_count_lines_total_events demo_float_repr) as (_ & Hrow & Hmain).
  set (written := files_written
         (main demo_float_repr demo_world (lit "/logs/system.logarchive")).1).
  set (content := match written with [(_, c)] => c | _ => [] end).
  assert (written = [(lit "log_report_20240102_120000.csv", content)]) as Hw
    by reflexivity.
  destruct (Hmain demo_world (lit "/logs/system.logarchive")
              (lit "log_report_20240102_120000.csv") content)
    as (located & path & temp_dir & log_lines & i & Hloc & Hout & Hlines & Hc).
  { fold written. rewrite Hw. left. }
  exists content, i. split_and!; [done | done |].
  rewrite Hrow. repeat f_equal. rewrite Hlines.
  injection Hloc as _ <- _. injection Hout as <-. reflexivity.
Defined.

(** ** Reading back what [csv.writer] wrote *)

Lemma needs_quote_false c :
  needs_quote c = false →
  bool_decide (c = ","%char) = false ∧ bool_decide (c = dquote) = false
  ∧ is_cr c = false ∧ is_lf c = false.
Proof.
  unfold needs_quote, is_cr, is_lf.
  intros [[[? ?]%orb_false_iff ?]%orb_false_iff ?]%orb_false_iff. done.
Qed.

Lemma read_records_step r c rest r1 :
  parse_process_char r (Some c) = Some r1 →
  line_ends c rest = false →
  read_records r (c :: rest) = read_records r1 rest.
Proof. intros H1 H2. simpl. rewrite H1. simpl. by rewrite H2. Qed.

Lemma line_ends_plain c rest :
  rest ≠ [] → is_lf c = false → is_cr c = false → line_ends c rest = false.
Proof.
  intros Hrest Hlf Hcr. destruct rest; [done|].
  unfold line_ends. by rewrite Hlf, Hcr.
Qed.

(** Inside a quoted field the end of a line changes nothing. *)
Lemma read_records_in_quoted b fs c rest :
  bool_decide (c = dquote) = false →
  rest ≠ [] →
  read_records (Build_reader IN_QUOTED_FIELD b fs) (c :: rest)
  = read_records (Build_reader IN_QUOTED_FIELD (b ++ [c]) fs) rest.
Proof.
  intros Hc Hrest. simpl read_records.
  assert (parse_process_char (Build_reader IN_QUOTED_FIELD b fs) (Some c)
          = Some (Build_reader IN_QUOTED_FIELD (b ++ [c]) fs)) as ->.
  { unfold parse_process_char. simpl r_state. by rewrite Hc. }
  simpl. destruct (line_ends c rest); reflexivity.
Qed.

(** An unquoted field is read character by character. *)
Lemma read_records_unquoted f b fs rest :
  existsb needs_quote f = false →
  rest ≠ [] →
  read_records (Build_reader IN_FIELD b fs) (f ++ rest)
  = read_records (Build_reader IN_FIELD (b ++ f) fs) rest.
Proof.
  revert b. induction f as [|c f IH]; intros b Hf Hrest.
  - by rewrite app_nil_r.
  - simpl in Hf. apply orb_false_iff in Hf as [Hc Hf].
    apply needs_quote_false in Hc as (Hcomma & Hdq & Hcr & Hlf).
    rewrite <- app_comm_cons.
    rewrite (read_records_step _ c _ (Build_reader IN_FIELD (b ++ [c]) fs)).
    + rewrite IH by done. by rewrite <- app_assoc.
    + unfold parse_process_char. simpl r_state. by rewrite Hlf, Hcr, Hcomma.
    + apply line_ends_plain; [by destruct f, rest | done | done].
Qed.

(** The content of a quoted field, up to and including the closing quote. *)
Lemma read_records_quoted f b fs rest :
  rest ≠ [] →
  read_records (Build_reader IN_QUOTED_FIELD b fs)
               (double_quotes f ++ dquote :: rest)
  = read_records (Build_reader QUOTE_IN_QUOTED_FIELD (b ++ f) fs) rest.
Proof.
  intros Hrest. revert b. induction f as [|c f IH]; intros b.
  - rewrite app_nil_r. simpl app. apply read_records_step; [done|].
    by apply line_ends_plain.
  - simpl double_quotes. destruct (bool_decide (c = dquote)) eqn:Hc.
    + apply bool_decide_eq_true in Hc as ->. rewrite <- !app_comm_cons.
      rewrite (read_records_step _ dquote _ (Build_reader QUOTE_IN_QUOTED_FIELD b fs));
        [|done|done].
      rewrite (read_records_step _ dquote _
                 (Build_reader IN_QUOTED_FIELD (b ++ [dquote]) fs)); [|done|].
      * rewrite IH. by rewrite <- app_assoc.
      * apply line_ends_plain; [by destruct (double_quotes f) | done | done].
    + rewrite <- app_comm_cons. rewrite read_records_in_quoted;
        [|done|by destruct (double_quotes f)].
      rewrite IH. by rewrite <- app_assoc.
Qed.

Lemma parse_process_char_start st fs c :
  at_field_start st → is_lf c = false → is_cr c = false →
  parse_process_char (Build_reader st [] fs) (Some c)
  = Some (start_field c (Build_reader st [] fs)).
Proof.
  intros [-> | ->] Hlf Hcr; unfold parse_process_char; simpl r_state;
    by rewrite Hlf, Hcr.
Qed.

(** The text of a field, read from the start of the field: the reader is
    left after the field, holding it. *)
Lemma read_records_field f st fs rest :
  at_field_start st →
  rest ≠ [] →
  ∃ st',
    read_records (Build_reader st [] fs) (csv_field f ++ rest)
    = read_records (Build_reader st' f fs) rest
    ∧ (st' = QUOTE_IN_QUOTED_FIELD ∨ st' = IN_FIELD ∨ (st' = st ∧ f = [])).
Proof.
  intros Hst Hrest. unfold csv_field in *.
  destruct (existsb needs_quote f) eqn:Hq.
  - exists QUOTE_IN_QUOTED_FIELD. split; [|by left].
    rewrite <- app_comm_cons, <- app_assoc. simpl app.
    rewrite (read_records_step _ dquote _ (Build_reader IN_QUOTED_FIELD [] fs)).
    + by rewrite read_records_quoted.
    + rewrite parse_process_char_start by done. done.
    + apply line_ends_plain; [by destruct (double_quotes f) | done | done].
  - destruct f as [|c f].
    + exists st. split; [done|]. right. by right.
    + exists IN_FIELD. split; [|right; by left].
      simpl in Hq. apply orb_false_iff in Hq as [Hc Hf].
      apply needs_quote_false in Hc as (Hcomma & Hdq & Hcr & Hlf).
      rewrite <- app_comm_cons.
      rewrite (read_records_step _ c _ (Build_reader IN_FIELD [c] fs)).
      * by rewrite read_records_unquoted.
      * rewrite parse_process_char_start by done.
        unfold start_field. by rewrite Hdq, Hcomma.
      * apply line_ends_plain; [by destruct f, rest | done | done].
Qed.

Lemma read_records_delimiter st st' f fs rest :
  at_field_start st →
  st' = QUOTE_IN_QUOTED_FIELD ∨ st' = IN_FIELD ∨ (st' = st ∧ f = []) →
  rest ≠ [] →
  read_records (Build_reader st' f fs) (","%char :: rest)
  = read_records (Build_reader START_FIELD [] (fs ++ [f])) rest.
Proof.
  intros Hst Hst' Hrest. apply read_records_step; [|by apply line_ends_plain].
  destruct Hst' as [-> | [-> | [-> ->]]]; [done | done |].
  by rewrite parse_process_char_start.
Qed.

(** The end of a record after its last field. *)
Lemma read_records_crlf st b fs rest :
  st = QUOTE_IN_QUOTED_FIELD ∨ st = IN_FIELD ∨ st = START_FIELD →
  read_records (Build_reader st b fs) (crlf ++ rest)
  = ((fs ++ [b]) ::.) <$> read_records reader_reset rest.
Proof.
  intros Hst. unfold crlf. simpl app.
  rewrite (read_records_step _ _ _ (Build_reader EAT_CRNL [] (fs ++ [b])));
    [| by destruct Hst as [-> | [-> | ->]] | done].
  simpl read_records.
  assert (line_ends "010" rest = true) as -> by (by destruct rest).
  reflexivity.
Qed.

(** The empty record. *)
Lemma read_records_blank rest :
  read_records reader_reset (crlf ++ rest)
  = ([] ::.) <$> read_records reader_reset rest.
Proof.
  unfold crlf. simpl app.
  rewrite (read_records_step _ _ _ (Build_reader EAT_CRNL [] [])); [|done|done].
  simpl read_records.
  assert (line_ends "010" rest = true) as -> by (by destruct rest).
  reflexivity.
Qed.

(** The fields of a record, from any of them on. *)
Lemma read_records_join fields st fs rest :
  fields ≠ [] →
  at_field_start st →
  st = START_FIELD ∨ fields ≠ [[]] →
  read_records (Build_reader st [] fs) (csv_join fields ++ crlf ++ rest)
  = ((fs ++ fields) ::.) <$> read_records reader_reset rest.
Proof.
  revert st fs. induction fields as [|f fields IH]; intros st fs Hne Hst Hlone; [done|].
  destruct fields as [|g fields].
  - simpl csv_join.
    destruct (read_records_field f st fs (crlf ++ rest) Hst) as (st' & -> & Hst');
      [done|].
    apply read_records_crlf.
    destruct Hst' as [-> | [-> | [-> ->]]]; [by left | right; by left |].
    right. right. by destruct Hlone.
  - change (csv_join (f :: g :: fields))
      with (csv_field f ++ ","%char :: csv_join (g :: fields)).
    rewrite <- app_assoc, <- app_comm_cons.
    destruct (read_records_field f st fs
                (","%char :: csv_join (g :: fields) ++ crlf ++ rest) Hst)
      as (st' & -> & Hst'); [done|].
    rewrite (read_records_delimiter st);
      [| done | done | by intros [_ ?]%app_eq_nil].
    rewrite IH; [| done | by right | by left].
    by rewrite <- app_assoc.
Qed.

(** One record. *)
Lemma read_records_row row rest :
  read_records reader_reset (csv_row row ++ rest)
  = (row ::.) <$> read_records reader_reset rest.
Proof.
  destruct row as [|f fields].
  - apply read_records_blank.
  - destruct (decide (f :: fields = [[]])) as [[= -> ->]|Hlone].
    + transitivity (read_records (Build_reader IN_QUOTED_FIELD [] [])
                      (double_quotes [] ++ dquote :: crlf ++ rest)).
      { by apply read_records_step. }
      rewrite read_records_quoted by done.
      apply read_records_crlf. by left.
    + assert (csv_row (f :: fields) = csv_join (f :: fields) ++ crlf) as ->.
      { unfold csv_row. destruct f; [|done]. by destruct fields. }
      rewrite <- app_assoc.
      by apply (read_records_join (f :: fields) START_RECORD []);
        [| left | right].
Qed.

(** What [csv.writer] wrote, [csv.reader] reads back. *)
Lemma csv_read_rows (rows : list (list str)) :
  csv_read (concat (map csv_row rows)) = Some rows.
Proof.
  unfold csv_read. induction rows as [|row rows IH]; [done|].
  simpl concat. by rewrite read_records_row, IH.
Qed.

(** ** The round trip of the report *)

Lemma int_of_str_of_int n : int_of_str (str_of_int n) = Some n.
Proof.
  unfold int_of_str, str_of_int, lit.
  rewrite string_of_list_ascii_of_string, NilZero.isi.
  - simpl. by rewrite DecimalZ.of_to.
  - destruct n; [done | |done]. simpl. intros [= H].
    by apply DecimalPos.Unsigned.to_uint_nonnil in H.
  - destruct n; [done | done |]. simpl. intros [= H].
    by apply DecimalPos.Unsigned.to_uint_nonnil in H.
Qed.

Lemma csv_text_rows float_repr (rows : list (list cell)) :
  csv_text float_repr rows
  = concat (map csv_row (map (map (cell_text float_repr)) rows)).
Proof. unfold csv_text. by rewrite map_map. Qed.

(** The rows of the second section are read back as the pairs they show. *)
Lemma read_pairs_subsystem_rows float_repr (subsystems : dict Z) :
  mapM read_pair (map (map (cell_text float_repr)) (subsystem_rows subsystems))
  = Some ((λ sub, (sub, count_of subsystems sub))
            <$> sorted_desc (count_of subsystems) (keys subsystems)).
Proof.
  unfold subsystem_rows.
  apply mapM_Some_2.
  induction (sorted_desc (count_of subsystems) (keys subsystems)) as [|k l IH];
    [constructor|].
  rewrite !fmap_cons. cbn [map]. constructor; [|done].
  cbn [cell_text read_pair]. by rewrite int_of_str_of_int.
Qed.

Lemma subsystem_pairs_perm (subsystems : dict Z) :
  dict_wf subsystems →
  (λ sub, (sub, count_of subsystems sub))
    <$> sorted_desc (count_of subsystems) (keys subsystems)
  ≡ₚ subsystems.
Proof.
  intros Hwf. rewrite sorted_desc_perm. unfold keys.
  rewrite <- list_fmap_compose.
  assert ((λ sub, (sub, count_of subsystems sub)) ∘ fst <$> subsystems
          = subsystems) as ->; [|done].
  transitivity (id <$> (subsystems : list (str * Z))); [|apply list_fmap_id].
  apply list_fmap_ext. intros j [k v] Hj. simpl. unfold count_of.
  by rewrite (dict_elem_get subsystems k v Hwf (list_elem_of_lookup_2 _ _ _ Hj)).
Qed.

(** Decoding the table of a report, given that the float texts parse back. *)
Lemma decode_report_rows float_repr float_parse (i : info) :
  Forall (λ x, float_parse (float_repr x) = Some x) (report_floats i) →
  decode float_parse (map (map (cell_text float_repr)) (report_rows i))
  = Some {| rb_path := info_path i;
            rb_size := info_size i;
            rb_size_mb := round2 (float_div_int (info_size i) 1024);
            rb_size_gb :=
              round2 (float_div_int (round2 (float_div_int (info_size i) 1024)) 1024);
            rb_start := info_start i;
            rb_end := info_end i;
            rb_ttl := info_ttl i;
            rb_ttl_hours := round2 (float_div_int (info_ttl i) 60);
            rb_ttl_days :=
              round2 (float_div_int (round2 (float_div_int (info_ttl i) 60)) 24);
            rb_lines := info_lines i;
            rb_unique := Z.of_nat (length (info_subsystems i));
            rb_subsystems :=
              (λ sub, (sub, count_of (info_subsystems i) sub))
                <$> sorted_desc (count_of (info_subsystems i))
                                (keys (info_subsystems i)) |}.
Proof.
  unfold report_floats. intros Hf.
  repeat (apply Forall_cons in Hf as [? Hf]).
  unfold report_rows, scalar_rows. cbn [app map cell_text decode].
  repeat match goal with H : float_parse _ = Some _ |- _ => rewrite H; clear H end.
  rewrite !int_of_str_of_int. cbn [mbind option_bind].
  by rewrite read_pairs_subsystem_rows.
Qed.

(** C9. For every report whose tally has unique keys, reading back the
    file [generate_csv] writes gives the table of the texts written, and
    decoding that table recovers the path, the three sizes, the first and
    the last line, the three times to live, the number of events, the
    number of subsystems, and the pairs of the tally up to their order;
    a report that gives the same file shows the same table.  The texts of
    the floats are taken to parse back to the floats, as Python's [repr]
    and [float] do. *)
Theorem C9_csv_round_trip float_repr float_parse (i : info) :
  dict_wf (info_subsystems i) →
  Forall (λ x, float_parse (float_repr x) = Some x) (report_floats i) →
  ∃ table rb,
    csv_read (csv_text float_repr (report_rows i)) = Some table
    ∧ table = map (map (cell_text float_repr)) (report_rows i)
    ∧ decode float_parse table = Some rb
    ∧ rb_path rb = info_path i
    ∧ [rb_size rb; rb_size_mb rb; rb_size_gb rb;
       rb_ttl rb; rb_ttl_hours rb; rb_ttl_days rb] = report_floats i
    ∧ rb_start rb = info_start i
    ∧ rb_end rb = info_end i
    ∧ rb_lines rb = info_lines i
    ∧ rb_unique rb = Z.of_nat (length (info_subsystems i))
    ∧ rb_subsystems rb ≡ₚ info_subsystems i
    ∧ (∀ j : info,
         csv_text float_repr (report_rows j) = csv_text float_repr (report_rows i) →
         map (map (cell_text float_repr)) (report_rows j) = table).
Proof.
  intros Hwf Hf. eexists _, _. split_and!.
  - rewrite csv_text_rows. apply csv_read_rows.
  - reflexivity.
  - by apply decode_report_rows.
  - done.
  - done.
  - done.
  - done.
  - done.
  - done.
  - by apply subsystem_pairs_perm.
  - intros j Heq. apply (f_equal csv_read) in Heq.
    rewrite !csv_text_rows, !csv_read_rows in Heq. by apply (inj Some).
Qed.

(** C9 on the sample report. *)
Lemma C9_csv_round_trip_witness :
  ∃ table rb,
    csv_read (csv_text demo_float_repr (report_rows demo_info)) = Some table
    ∧ decode demo_float_parse table = Some rb
    ∧ rb_path rb = lit "/logs/system.logarchive"
    ∧ [rb_size rb; rb_size_mb rb; rb_size_gb rb;
       rb_ttl rb; rb_ttl_hours rb; rb_ttl_days rb] = report_floats demo_info
    ∧ rb_lines rb = 5
    ∧ rb_unique rb = 3
    ∧ rb_subsystems rb ≡ₚ [(lit "B", 1); (lit "A", 2); (lit "C", 2)].
Proof.
  destruct (C9_csv_round_trip demo_float_repr demo_float_parse demo_info)
    as (table & rb & Hread & _ & Hdec & Hpath & Hfloats & _ & _ & Hlines & Hu
        & Hsub & _).
  - unfold dict_wf. apply (bool_decide_unpack _). by vm_compute.
  - unfold report_floats. repeat constructor; by vm_compute.
  - exists table, rb. by split_and!.
Defined.

(* ===================================================================== *)
(** * Further properties of the code *)
(* ===================================================================== *)

(** ** The tally: sum, positivity, order of the keys *)

Lemma fold_left_add_sum (l : list Z) (a : Z) : fold_left Z.add l a = a + sum_Z l.
Proof.
  revert a. induction l as [|x l IH]; intros a; simpl; [lia|].
  rewrite IH. unfold sum_Z. simpl. lia.
Qed.

Lemma total_events_sum (d : dict Z) : total_events d = sum_Z d.*2.
Proof. unfold total_events. by rewrite fold_left_add_sum. Qed.

Lemma sum_values_dict_set (d : dict Z) k v :
  sum_Z (dict_set d k v).*2 = sum_Z d.*2 - default 0 (dict_get d k) + v.
Proof.
  induction d as [|[k0 v0] d IH]; simpl.
  - unfold sum_Z. simpl. lia.
  - destruct (decide (k0 = k)) as [->|Hne]; csimpl.
    + unfold sum_Z. simpl. lia.
    + unfold sum_Z in *. simpl. rewrite IH. lia.
Qed.

Lemma values_dict_set_positive (d : dict Z) k v :
  Forall (λ kv, 1 ≤ kv.2) d → 1 ≤ v → Forall (λ kv, 1 ≤ kv.2) (dict_set d k v).
Proof.
  intros Hd Hv. induction Hd as [|[k0 v0] d H0 Hd IH]; simpl.
  - by repeat constructor.
  - destruct (decide (k0 = k)); constructor; done.
Qed.

Lemma dict_get_positive (d : dict Z) k :
  Forall (λ kv, 1 ≤ kv.2) d → 0 ≤ default 0 (dict_get d k).
Proof.
  intros Hd. destruct (dict_get d k) as [v|] eqn:Hk; simpl; [|lia].
  apply dict_get_Some_elem in Hk.
  rewrite Forall_forall in Hd. specialize (Hd _ Hk). simpl in Hd. lia.
Qed.

Lemma count_subsystems_sum_from lines (d : dict Z) :
  Forall (λ kv, 1 ≤ kv.2) d →
  Forall (λ kv, 1 ≤ kv.2) (fold_left count_subsystems_step lines d)
  ∧ sum_Z (fold_left count_subsystems_step lines d).*2
    = sum_Z d.*2 + Z.of_nat (length (line_labels lines)).
Proof.
  revert d. induction lines as [|line lines IH]; intros d Hd; simpl.
  - split; [done | lia].
  - rewrite count_subsystems_step_label. unfold line_labels. simpl.
    fold (line_labels lines).
    destruct (label_of line) as [sub|]; [|by apply IH].
    pose proof (dict_get_positive d sub Hd) as Hpos.
    destruct (IH (dict_set d sub (default 0 (dict_get d sub) + 1))) as [H1 H2].
    { apply values_dict_set_positive; [done | lia]. }
    split; [done|]. rewrite H2, sum_values_dict_set. simpl length. lia.
Qed.

Lemma length_line_labels lines :
  length (line_labels lines) = length (filter (λ l, is_Some (label_of l)) lines).
Proof.
  unfold line_labels. induction lines as [|l lines IH]; [done|].
  rewrite filter_cons. cbn [omap list_omap].
  destruct (label_of l) as [s|] eqn:Hl.
  - rewrite decide_True by eauto. rewrite !length_cons. by rewrite IH.
  - rewrite decide_False by (by intros [? ?]). apply IH.
Qed.

(** X1. Every count of the tally is at least one, and the counts add up
    to the number of lines that have a bracket pair: that is the value
    [generate_csv] computes as [total_events], and it is at most the number
    of lines. *)
Theorem X1_tally_counts_sum (lines : list str) :
  Forall (λ kv, 1 ≤ kv.2) (count_subsystems lines)
  ∧ total_events (count_subsystems lines)
    = Z.of_nat (length (filter (λ l, is_Some (label_of l)) lines))
  ∧ total_events (count_subsystems lines) ≤ Z.of_nat (length lines).
Proof.
  destruct (count_subsystems_sum_from lines []) as [H1 H2]; [constructor|].
  pose proof (length_line_labels lines) as Hlen.
  unfold count_subsystems. rewrite total_events_sum, H2, Hlen.
  split_and!; [done | unfold sum_Z; simpl; lia |].
  unfold sum_Z. simpl. pose proof (length_filter (λ l, is_Some (label_of l)) lines).
  lia.
Qed.

Lemma first_occurrences_NoDup l : NoDup (first_occurrences l).
Proof.
  induction l as [|x l IH]; simpl; [constructor|].
  constructor; [|by apply NoDup_filter].
  rewrite list_elem_of_filter. by intros [? _].
Qed.

Lemma first_occurrences_elem x l : x ∈ first_occurrences l ↔ x ∈ l.
Proof.
  induction l as [|y l IH]; simpl; [done|].
  rewrite !elem_of_cons, list_elem_of_filter, IH.
  destruct (decide (x = y)) as [->|Hne]; [split; by left|].
  split; (intros [?|?]; [by left | right; tauto]).
Qed.

Lemma filter_all {A} (P : A → Prop) `{!∀ x, Decision (P x)} (l : list A) :
  (∀ x, P x) → filter P l = l.
Proof.
  intros HP. induction l as [|x l IH]; [done|].
  by rewrite filter_cons, decide_True, IH.
Qed.

Lemma count_subsystems_keys_from lines (d : dict Z) :
  keys (fold_left count_subsystems_step lines d)
  = keys d ++ filter (λ x, x ∉ keys d) (first_occurrences (line_labels lines)).
Proof.
  revert d. induction lines as [|line lines IH]; intros d.
  - simpl. by rewrite app_nil_r.
  - cbn [fold_left]. rewrite IH, count_subsystems_step_label.
    unfold line_labels. cbn [omap list_omap]. fold (line_labels lines).
    destruct (label_of line) as [k|]; [|done].
    cbn [first_occurrences]. rewrite filter_cons.
    destruct (dict_get d k) as [v|] eqn:Hk.
    + rewrite keys_dict_set_in by eauto.
      assert (k ∈ keys d) as Hin.
      { destruct (decide (k ∈ keys d)) as [|Hn]; [done|].
        apply dict_get_None in Hn. congruence. }
      rewrite decide_False by (by intros ?). f_equal.
      rewrite list_filter_filter. apply list_filter_iff.
      intros x. split; [|by intros [? _]]. intros Hx. split; [done|].
      by intros ->.
    + rewrite keys_dict_set_new by done.
      apply dict_get_None in Hk. rewrite decide_True by done.
      rewrite <- app_assoc. simpl. do 2 f_equal.
      rewrite list_filter_filter. apply list_filter_iff.
      intros x. rewrite not_elem_of_app, list_elem_of_singleton. done.
Qed.

Lemma count_subsystems_keys lines :
  keys (count_subsystems lines) = first_occurrences (line_labels lines).
Proof.
  unfold count_subsystems. rewrite count_subsystems_keys_from. simpl.
  apply filter_all. intros x. apply not_elem_of_nil.
Qed.

(** X2. The keys of the tally are the distinct labels of the lines, each
    once, in the order in which the labels first appear in the log. *)
Theorem X2_tally_keys_first_appearance (lines : list str) :
  keys (count_subsystems lines) = first_occurrences (line_labels lines)
  ∧ NoDup (keys (count_subsystems lines))
  ∧ (∀ k, k ∈ keys (count_subsystems lines)
          ↔ ∃ line, line ∈ lines ∧ first_bracket_pair line k).
Proof.
  pose proof (count_subsystems_keys lines) as Hkeys.
  split_and!; [done | rewrite Hkeys; apply first_occurrences_NoDup |].
  intros k. rewrite Hkeys, first_occurrences_elem. unfold line_labels.
  rewrite list_elem_of_omap. by setoid_rewrite label_of_spec.
Qed.

(** ** The second section: size and order among equal counts *)

Lemma length_subsystem_rows (subsystems : dict Z) :
  length (subsystem_rows subsystems) = length subsystems.
Proof.
  unfold subsystem_rows, keys.
  by rewrite length_fmap, sorted_desc_perm, length_fmap.
Qed.

(** X3. A report has fourteen rows and then one row for each entry of the
    tally; the value shown as [Unique Subsystems] is the number of rows of
    the second section, the file read back has as many records as the
    report has rows, and in a report [main] builds that number is the
    number of distinct labels of the log. *)
Theorem X3_unique_subsystems_row float_repr (i : info) :
  length (report_rows i) = (14 + length (info_subsystems i))%nat
  ∧ report_rows i !! 11%nat
    = Some [CStr (lit "Unique Subsystems");
            CInt (Z.of_nat (length (drop 14 (report_rows i))))]
  ∧ length <$> csv_read (csv_text float_repr (report_rows i))
    = Some (14 + length (info_subsystems i))%nat
  ∧ (∀ path size_kb log_lines start_line end_line ttl,
       i = report_info path size_kb log_lines start_line end_line ttl →
       length (info_subsystems i)
       = length (first_occurrences (line_labels log_lines))).
Proof.
  assert (length (report_rows i) = (14 + length (info_subsystems i))%nat) as Hlen.
  { unfold report_rows. rewrite !length_app, length_subsystem_rows. done. }
  split_and!.
  - done.
  - change (drop 14 (report_rows i)) with (subsystem_rows (info_subsystems i)).
    by rewrite length_subsystem_rows.
  - rewrite csv_text_rows, csv_read_rows. cbn [fmap option_fmap option_map].
    by rewrite length_map, Hlen.
  - intros path size_kb log_lines start_line end_line ttl ->. simpl.
    rewrite <- count_subsystems_keys. unfold keys. by rewrite length_fmap.
Qed.

Lemma filter_fmap_comp {A B} (f : A → B) (P : B → Prop) `{!∀ y, Decision (P y)}
    (l : list A) :
  filter P (f <$> l) = f <$> filter (λ x, P (f x)) l.
Proof.
  induction l as [|x l IH]; [done|]. csimpl. rewrite !filter_cons.
  destruct (decide (P (f x))); csimpl; by rewrite IH.
Qed.

Lemma subsystem_items_filter (subsystems l : dict Z) c :
  Forall (λ kv, dict_get subsystems kv.1 = Some kv.2) l →
  (λ sub, [CStr sub; CInt (count_of subsystems sub)])
    <$> filter (λ sub, count_of subsystems sub = c) l.*1
  = row_of_item <$> filter (λ kv, kv.2 = c) l.
Proof.
  intros Hl. induction Hl as [|[k v] l Hkv Hl IH]; [done|].
  simpl in Hkv. assert (count_of subsystems k = v) as Hc
    by (unfold count_of; by rewrite Hkv).
  rewrite fmap_cons, (filter_cons _ k), (filter_cons _ (k, v)).
  cbn [fst snd]. rewrite Hc.
  destruct (decide (v = c)); [|done].
  rewrite !fmap_cons, IH. unfold row_of_item at 1. cbn [fst snd]. by rewrite Hc.
Qed.

(** X4. Among the rows of the second section that show the same count,
    the subsystems come in the order they have in the tally: the sort is
    stable. *)
Theorem X4_equal_counts_keep_tally_order (subsystems : dict Z) (c : Z) :
  dict_wf subsystems →
  filter (λ row, row_count row = c) (subsystem_rows subsystems)
  = row_of_item <$> filter (λ kv, kv.2 = c) subsystems.
Proof.
  intros Hwf. unfold subsystem_rows.
  rewrite filter_fmap_comp. simpl.
  rewrite (sorted_desc_stable (count_of subsystems)). unfold keys.
  apply subsystem_items_filter. apply Forall_forall. intros [k v] Hin.
  by apply dict_elem_get.
Qed.

(** X4 on the sample report: A and C both have two lines, A was seen
    first. *)
Lemma X4_equal_counts_keep_tally_order_witness :
  filter (λ row, row_count row = 2) (subsystem_rows (info_subsystems demo_info))
  = [ [CStr (lit "A"); CInt 2]; [CStr (lit "C"); CInt 2] ].
Proof.
  rewrite (X4_equal_counts_keep_tally_order (info_subsystems demo_info) 2).
  - by vm_compute.
  - unfold dict_wf. apply (bool_decide_unpack _). by vm_compute.
Defined.

(** ** The shape of a run *)

Lemma bind_result {A B} (m : M A) (f : A → M B) :
  (m ≫= f).2 = match m.2 with Ok a => (f a).2 | Raised e => Raised e end.
Proof.
  unfold mbind, M_bind, bind. destruct m as [t [a|e]]; simpl; [|done].
  by destruct (f a).
Qed.

Lemma ret_bind {A B} (a : A) (f : A → M B) : (ret a ≫= f) = f a.
Proof. unfold mbind, M_bind, bind, ret. by destruct (f a). Qed.

Lemma quiet_app t1 t2 : quiet (t1 ++ t2) ↔ quiet t1 ∧ quiet t2.
Proof. apply Forall_app. Qed.

Lemma quiet_prints ms : quiet (Print <$> ms).
Proof. apply Forall_fmap, Forall_true. intros m. by exists m. Qed.


Lemma quiet_files_written t : quiet t → files_written t = [].
Proof.
  intros Hq. induction Hq as [|e t [m ->] _ IH]; [done|]. exact IH.
Qed.

(** The locator, with the truth test of the search resolved. *)
Lemma locate_cases w input :
  locate w input =
  if endswith input (lit ".tar.gz") then
    match w_extract w input with
    | None => ([], Raised (ExtractError input))
    | Some temp_dir =>
        match find_logarchive_in_directory w temp_dir with
        | None => ([Print (InfoExtracted temp_dir);
                    Print ErrNoLogarchiveInSysdiagnose], Ok None)
        | Some p => ([Print (InfoExtracted temp_dir)], Ok (Some (p, Some temp_dir)))
        end
    end
  else if endswith input (lit ".logarchive") && w_isdir w input then
    ([Print (InfoDetected input)], Ok (Some (input, None)))
  else if w_isdir w input then
    match find_logarchive_in_directory w input with
    | None => ([Print ErrNoLogarchiveInDirectory], Ok None)
    | Some p => ([], Ok (Some (p, None)))
    end
  else ([Print ErrInvalidInput], Ok None).
Proof.
  destruct (endswith input (lit ".tar.gz")) eqn:Htar.
  - destruct (w_extract w input) as [temp_dir|] eqn:Hex.
    + by rewrite (locate_tar_gz w input temp_dir Htar Hex).
    + unfold locate, extract_tar_gz. by rewrite Htar, Hex.
  - unfold locate. rewrite Htar.
    destruct (endswith input (lit ".logarchive") && w_isdir w input); [done|].
    destruct (w_isdir w input); [|done].
    destruct (find_logarchive_in_directory w input) as [p|] eqn:Hfind; [|done].
    by rewrite (find_logarchive_truthy w input p Hfind).
Qed.

Lemma locate_quiet w input : quiet (locate w input).1.
Proof.
  rewrite locate_cases.
  repeat (match goal with
          | |- context [if ?b then _ else _] => destruct b
          | |- context [match ?o with Some _ => _ | None => _ end] => destruct o
          end); simpl; repeat constructor; eauto.
Qed.

Lemma extract_log_output_quiet w path : quiet (extract_log_output w path).1.
Proof.
  unfold extract_log_output. destruct (w_log_show w path); simpl;
    repeat constructor; eauto.
Qed.

Lemma isdigit_not_space c : isdigit c = true → isspace c = false.
Proof. destruct c as [[] [] [] [] [] [] [] []]; by vm_compute. Qed.

(** A line that starts with a digit has a first token. *)
Lemma first_token_digit l :
  starts_with_digit l = true → ∃ tok, first_token l = Some tok.
Proof.
  destruct l as [|c r]; [done|]. simpl. intros Hc%isdigit_not_space.
  unfold first_token. simpl. rewrite Hc. simpl. rewrite Hc. simpl. eauto.
Qed.

Lemma get_time_range_digits lines s e :
  get_time_range lines = (Some s, Some e) →
  starts_with_digit s = true ∧ starts_with_digit e = true
  ∧ s ∈ lines ∧ e ∈ lines.
Proof.
  unfold get_time_range.
  destruct (filter (λ l, starts_with_digit l = true) lines) as [|x r] eqn:Hv;
    [done|].
  intros Heq.
  destruct (nonempty_snoc x r) as (r' & y & Hxy).
  assert (List.last (x :: r) x = y) as Hlast
    by (rewrite Hxy; apply List_last_snoc).
  rewrite Hlast in Heq. injection Heq as <- <-.
  assert (x ∈ x :: r) as Hx by left.
  assert (y ∈ x :: r) as Hy by (rewrite Hxy, elem_of_app; right; left).
  rewrite <- Hv in Hx, Hy.
  apply list_elem_of_filter in Hx as [? ?], Hy as [? ?]. done.
Qed.

Lemma parse_time_outcome w t :
  quiet (parse_time w t).1
  ∧ match (parse_time w t).2 with
    | Ok _ => True
    | Raised e => e = ParseError t
    end.
Proof.
  unfold parse_time. destruct (w_dateutil w) as [parse|].
  - destruct (parse t); simpl; (split; [constructor | done]).
  - destruct (w_strptime w (before_plus t)); simpl.
    + split; [constructor | done].
    + split; [|done]. repeat constructor. eauto.
Qed.

Lemma quiet_bind {A B} (m : M A) (f : A → M B) :
  quiet m.1 → (∀ a, m.2 = Ok a → quiet (f a).1) → quiet (m ≫= f).1.
Proof.
  intros Hm Hf. rewrite bind_trace. apply quiet_app. split; [done|].
  destruct (m.2) as [a|e]; [by apply Hf | constructor].
Qed.

Lemma first_token_or_raise_quiet line : quiet (first_token_or_raise line).1.
Proof. unfold first_token_or_raise. destruct (first_token line); constructor. Qed.

Lemma ttl_minutes_outcome e s :
  quiet (ttl_minutes e s).1
  ∧ match (ttl_minutes e s).2 with
    | Ok _ => True
    | Raised x => x = TypeError ∨ x = OverflowError
    end.
Proof.
  unfold ttl_minutes. destruct (datetime_sub e s) as [micros|]; simpl;
    [|split; [constructor | by left]].
  destruct (total_seconds micros); simpl; (split; [constructor|]); [done | by right].
Qed.

Lemma compute_ttl_quiet w s e : quiet (compute_ttl w s e).1.
Proof.
  unfold compute_ttl.
  apply quiet_bind; [apply first_token_or_raise_quiet|]. intros etok _.
  apply quiet_bind; [apply parse_time_outcome|]. intros de _.
  apply quiet_bind; [apply first_token_or_raise_quiet|]. intros stok _.
  apply quiet_bind; [apply parse_time_outcome|]. intros ds _.
  apply ttl_minutes_outcome.
Qed.

(** What [compute_ttl] can raise on two lines that start with a digit. *)
Lemma compute_ttl_raises w s e :
  starts_with_digit s = true → starts_with_digit e = true →
  match (compute_ttl w s e).2 with
  | Ok _ => True
  | Raised x => (∃ t, x = ParseError t) ∨ x = TypeError ∨ x = OverflowError
  end.
Proof.
  intros [stok Hs]%first_token_digit [etok He]%first_token_digit.
  unfold compute_ttl, first_token_or_raise. rewrite Hs, He.
  rewrite ret_bind, bind_result.
  pose proof (parse_time_outcome w etok) as [_ Hr1].
  destruct (parse_time w etok).2 as [de|x1]; [|left; eauto].
  rewrite ret_bind, bind_result.
  pose proof (parse_time_outcome w stok) as [_ Hr2].
  destruct (parse_time w stok).2 as [ds|x2]; [|left; eauto].
  pose proof (ttl_minutes_outcome de ds) as [_ Hr3].
  destruct (ttl_minutes de ds).2; [done | by right].
Qed.

Lemma raise_bind {A B} (e : exn) (f : A → M B) : (raise e ≫= f) = raise e.
Proof. done. Qed.

Lemma pair_bind_ok {A B} t (a : A) (f : A → M B) :
  ((t, Ok a) ≫= f) = (t ++ (f a).1, (f a).2).
Proof. unfold mbind, M_bind, bind. by destruct (f a). Qed.

Lemma pair_bind_raised {A B} t (e : exn) (f : A → M B) :
  ((t, Raised e) ≫= f) = (t, Raised e).
Proof. done. Qed.

Lemma extract_log_output_raises w path t x :
  extract_log_output w path = (t, Raised x) → x = LaunchError.
Proof.
  unfold extract_log_output. destruct (w_log_show w path); simpl; congruence.
Qed.

Lemma truthy_digit l : starts_with_digit l = true → truthy (Some l) = true.
Proof. by destruct l. Qed.

Lemma cleanup_ok w temp_dir : (cleanup w temp_dir).2 = Ok tt.
Proof.
  unfold cleanup. destruct (truthy temp_dir); [|done].
  rewrite bind_result. simpl. by destruct (bool_decide _).
Qed.

(** A run of the analysis either goes through every stage and writes the
    report, or it only prints, and then it has printed one of the two
    errors of the analysis or raised one of five exceptions. *)
Lemma analyse_cases float_repr w path temp_dir :
  (∃ size_kb rendered log_lines start_line end_line parsed ttl,
     (get_dir_size_kb w path).2 = Ok size_kb
     ∧ extract_log_output w path = (rendered, Ok log_lines)
     ∧ get_time_range log_lines = (Some start_line, Some end_line)
     ∧ compute_ttl w start_line end_line = (parsed, Ok ttl)
     ∧ w_writable w (report_name w) = true
     ∧ analyse float_repr w path temp_dir
       = (rendered ++ parsed
          ++ WriteFile (report_name w)
               (csv_text float_repr
                  (report_rows (report_info path size_kb log_lines
                                            start_line end_line ttl)))
             :: Print (InfoCsvGenerated (report_name w))
             :: (cleanup w temp_dir).1,
          Ok tt))
  ∨ (quiet (analyse float_repr w path temp_dir).1
     ∧ match (analyse float_repr w path temp_dir).2 with
       | Ok _ =>
           Print ErrNoLogOutput ∈ (analyse float_repr w path temp_dir).1
           ∨ Print ErrNoTimestamps ∈ (analyse float_repr w path temp_dir).1
       | Raised e =>
           e = OverflowError ∨ e = LaunchError ∨ (∃ t, e = ParseError t)
           ∨ e = TypeError ∨ e = WriteError (report_name w)
       end).
Proof.
  unfold analyse, get_dir_size_kb.
  destruct (int_truediv (total_size w path) 1024) as [q|]; run_bind;
    [|right; split; [constructor | by left]].
  pose proof (extract_log_output_quiet w path) as Hq1.
  destruct (extract_log_output w path) as [rendered [log_lines|x]] eqn:Hout;
    simpl in Hq1; run_bind.
  2:{ right. split; [done|].
      apply extract_log_output_raises in Hout as ->. right. by left. }
  destruct (bool_decide (log_lines = [])); run_bind.
  { right. split.
    - apply quiet_app. split; [done|]. repeat constructor. eauto.
    - left. apply elem_of_app. right. left. }
  unfold get_time_range_io.
  destruct (get_time_range log_lines) as [[start_line|] end_line] eqn:Hrange;
    run_bind.
  2:{ right. simpl. split.
      - apply quiet_app. split; [done|]. repeat constructor; eauto.
      - right. apply elem_of_app. right. right. left. }
  destruct end_line as [end_line|].
  2:{ right. simpl. rewrite orb_true_r. split.
      - apply quiet_app. split; [done|]. repeat constructor; eauto.
      - right. apply elem_of_app. right. left. }
  destruct (get_time_range_digits _ _ _ Hrange) as (Hs & He & _ & _).
  rewrite (truthy_digit _ Hs), (truthy_digit _ He).
  cbn [negb orb default from_option id].
  pose proof (compute_ttl_quiet w start_line end_line) as Hq2.
  pose proof (compute_ttl_raises w start_line end_line Hs He) as Hr2.
  destruct (compute_ttl w start_line end_line) as [parsed [ttl|x]] eqn:Httl;
    simpl in Hq2, Hr2; run_bind.
  2:{ right. split.
      - by apply quiet_app.
      - destruct Hr2 as [?|[?|?]]; eauto 10. }
  unfold generate_csv. fold (report_name w).
  destruct (w_writable w (report_name w)) eqn:Hw; run_bind.
  2:{ right. rewrite app_nil_r. split.
      - by apply quiet_app.
      - do 4 right. done. }
  left. exists (round2 q), rendered, log_lines, start_line, end_line, parsed, ttl.
  split_and!; [done..|].
  pose proof (cleanup_ok w temp_dir) as Hc.
  destruct (cleanup w temp_dir) as [tc rc]. simpl in Hc. subst rc. done.
Qed.

Lemma locate_outcome w input :
  match (locate w input).2 with
  | Ok None => ∃ m, is_error m = true ∧ Print m ∈ (locate w input).1
  | Ok (Some (path, Some temp_dir)) =>
      endswith input (lit ".tar.gz") = true ∧ w_extract w input = Some temp_dir
      ∧ find_logarchive_in_directory w temp_dir = Some path
  | Ok (Some (path, None)) =>
      endswith input (lit ".tar.gz") = false ∧ w_isdir w input = true
      ∧ (path = input ∧ endswith input (lit ".logarchive") = true
         ∨ find_logarchive_in_directory w input = Some path)
  | Raised e => e = ExtractError input
  end.
Proof.
  rewrite locate_cases.
  destruct (endswith input (lit ".tar.gz")) eqn:Htar.
  - destruct (w_extract w input) as [temp_dir|] eqn:Hex; [|done].
    destruct (find_logarchive_in_directory w temp_dir) as [p|] eqn:Hfind; simpl.
    + done.
    + exists ErrNoLogarchiveInSysdiagnose. split; [done|]. right. left.
  - destruct (endswith input (lit ".logarchive")) eqn:Hla; simpl.
    + destruct (w_isdir w input) eqn:Hdir; simpl.
      * split_and!; [done | done |]. by left.
      * exists ErrInvalidInput. split; [done | left].
    + destruct (w_isdir w input) eqn:Hdir; simpl.
      * destruct (find_logarchive_in_directory w input) as [p|] eqn:Hfind; simpl.
        -- split_and!; [done | done |]. by right.
        -- exists ErrNoLogarchiveInDirectory. split; [done | left].
      * exists ErrInvalidInput. split; [done | left].
Qed.

(** A run of [main] either locates the archive, goes through every stage
    and writes the report, or it only prints, and then it has printed an
    error or raised one of six exceptions. *)
Lemma main_cases float_repr w input :
  (∃ located path temp_dir size_kb rendered log_lines start_line end_line
     parsed ttl,
     locate w input = (located, Ok (Some (path, temp_dir)))
     ∧ extract_log_output w path = (rendered, Ok log_lines)
     ∧ get_time_range log_lines = (Some start_line, Some end_line)
     ∧ compute_ttl w start_line end_line = (parsed, Ok ttl)
     ∧ main float_repr w input
       = (located ++ rendered ++ parsed
          ++ WriteFile (report_name w)
               (csv_text float_repr
                  (report_rows (report_info path size_kb log_lines
                                            start_line end_line ttl)))
             :: Print (InfoCsvGenerated (report_name w))
             :: (cleanup w temp_dir).1,
          Ok tt))
  ∨ (quiet (main float_repr w input).1
     ∧ match (main float_repr w input).2 with
       | Ok _ => ∃ m, is_error m = true ∧ Print m ∈ (main float_repr w input).1
       | Raised e =>
           e = ExtractError input ∨ e = OverflowError ∨ e = LaunchError
           ∨ (∃ t, e = ParseError t) ∨ e = TypeError
           ∨ e = WriteError (report_name w)
       end).
Proof.
  unfold main.
  pose proof (locate_quiet w input) as Hq.
  pose proof (locate_outcome w input) as Hl.
  destruct (locate w input) as [located [[[path temp_dir]|]|x]] eqn:Hloc;
    simpl in Hq, Hl; run_bind.
  - destruct (analyse_cases float_repr w path temp_dir)
      as [(size_kb & rendered & log_lines & start_line & end_line & parsed & ttl
           & _ & Hout & Hrange & Httl & _ & ->) | [Hqa Hra]].
    + left. exists located, path, temp_dir, size_kb, rendered, log_lines,
        start_line, end_line, parsed, ttl. by split_and!.
    + right. destruct (analyse float_repr w path temp_dir) as [ta ra].
      simpl in *. split; [by apply quiet_app|].
      destruct ra as [[]|e].
      * destruct Hra as [Hin|Hin].
        -- exists ErrNoLogOutput. split; [done|]. apply elem_of_app. by right.
        -- exists ErrNoTimestamps. split; [done|]. apply elem_of_app. by right.
      * by right.
  - right. rewrite app_nil_r. split; [done|].
    destruct Hl as (m & Hm & Hin). by exists m.
  - right. split; [done | by left].
Qed.

(** ** What a run raises, writes and removes *)




Lemma cleanup_trace w temp_dir :
  (cleanup w temp_dir).1 =
  match temp_dir with
  | Some dir =>
      if bool_decide (dir = []) then []
      else Prompt dir ::
             (if bool_decide (map lower (strip (w_answer w)) = lit "y")
              then [Rmtree dir; Print (InfoDeleted dir)]
              else [Print (InfoKept dir)])
  | None => []
  end.
Proof.
  unfold cleanup. destruct temp_dir as [dir|]; [|done]. simpl.
  destruct (bool_decide (dir = [])); [done|]. simpl.
  by destruct (bool_decide (map lower (strip (w_answer w)) = lit "y")).
Qed.




(** ** The answer at the prompt *)

Lemma drop_while_all {A} (p : A → bool) (pre l : list A) :
  Forall (λ x, p x = true) pre → drop_while p (pre ++ l) = drop_while p l.
Proof. intros H. induction H as [|x pre Hx _ IH]; simpl; [done|]. by rewrite Hx. Qed.

Lemma drop_while_split {A} (p : A → bool) (l : list A) :
  ∃ pre, l = pre ++ drop_while p l ∧ Forall (λ x, p x = true) pre
         ∧ match drop_while p l with x :: _ => p x = false | [] => True end.
Proof.
  induction l as [|x l (pre & E & Hpre & Hhd)]; simpl.
  - by exists [].
  - destruct (p x) eqn:Hx.
    + exists (x :: pre). split_and!; [by rewrite E at 1 | by constructor | done].
    + exists []. by split_and!.
Qed.

Lemma strip_singleton s c :
  strip s = [c] ↔
  isspace c = false
  ∧ ∃ pre post, s = pre ++ c :: post
                ∧ Forall (λ x, isspace x = true) pre
                ∧ Forall (λ x, isspace x = true) post.
Proof.
  unfold strip. split.
  - intros Hs.
    destruct (drop_while_split isspace s) as (pre & Es & Hpre & _).
    destruct (drop_while_split isspace (reverse (drop_while isspace s)))
      as (post & Er & Hpost & Hhd).
    apply (f_equal reverse) in Hs. rewrite reverse_involutive in Hs.
    rewrite Hs in Er, Hhd. simpl in Hhd. split; [done|].
    apply (f_equal reverse) in Er. rewrite reverse_involutive in Er.
    rewrite reverse_app in Er. simpl in Er.
    exists pre, (reverse post). split_and!; [by rewrite <- Er | done |].
    by apply Forall_reverse.
  - intros (Hc & pre & post & -> & Hpre & Hpost).
    rewrite drop_while_all by done. simpl. rewrite Hc.
    rewrite reverse_cons, drop_while_all by (by apply Forall_reverse).
    simpl. by rewrite Hc.
Qed.

Lemma lower_y c : lower c = "y"%char ↔ c = "y"%char ∨ c = "Y"%char.
Proof.
  split.
  - destruct c as [[] [] [] [] [] [] [] []]; vm_compute; intros [=]; auto.
  - by intros [-> | ->].
Qed.

Lemma answer_is_yes s :
  map lower (strip s) = lit "y" ↔
  ∃ pre c post,
    s = pre ++ c :: post
    ∧ Forall (λ x, isspace x = true) pre
    ∧ Forall (λ x, isspace x = true) post
    ∧ (c = "y"%char ∨ c = "Y"%char).
Proof.
  split.
  - intros Hm. destruct (strip s) as [|c [|c' r]] eqn:Hs; try done.
    injection Hm as Hc. apply lower_y in Hc.
    apply strip_singleton in Hs as (_ & pre & post & -> & Hpre & Hpost).
    by exists pre, c, post.
  - intros (pre & c & post & -> & Hpre & Hpost & Hc).
    assert (strip (pre ++ c :: post) = [c]) as ->.
    { apply strip_singleton. split; [by destruct Hc as [-> | ->]|]. eauto. }
    simpl. apply lower_y in Hc. by rewrite Hc.
Qed.

(** X8. At the prompt the temporary directory is removed exactly when the
    answer is the letter [y] or [Y] with nothing but white space around it;
    on any other answer, the empty one and [yes] included, it is kept. *)
Theorem X8_cleanup_answer (w : World) (dir : str) :
  dir ≠ [] →
  ((cleanup w (Some dir)).1
   = [Prompt dir; Rmtree dir; Print (InfoDeleted dir)]
   ∨ (cleanup w (Some dir)).1 = [Prompt dir; Print (InfoKept dir)])
  ∧ (Rmtree dir ∈ (cleanup w (Some dir)).1
     ↔ ∃ pre c post,
         w_answer w = pre ++ c :: post
         ∧ Forall (λ x, isspace x = true) pre
         ∧ Forall (λ x, isspace x = true) post
         ∧ (c = "y"%char ∨ c = "Y"%char)).
Proof.
  intros Hdir. rewrite cleanup_trace, bool_decide_eq_false_2 by done.
  rewrite <- answer_is_yes.
  destruct (bool_decide (map lower (strip (w_answer w)) = lit "y")) eqn:Hy.
  - apply bool_decide_eq_true in Hy. split; [by left|].
    split; [done|]. intros _. right. left.
  - apply bool_decide_eq_false in Hy. split; [by right|].
    split; [|done]. intros H.
    repeat (apply elem_of_cons in H as [H|H]); try discriminate.
    by apply elem_of_nil in H.
Qed.

(** X8 on the sample world, whose operator answers [Y] between spaces. *)
Lemma X8_cleanup_answer_witness :
  Rmtree (lit "/tmp/x") ∈ (cleanup demo_world (Some (lit "/tmp/x"))).1.
Proof.
  apply (X8_cleanup_answer demo_world (lit "/tmp/x")); [done|].
  exists (lit " "), "Y"%char, (lit " ").
  split_and!; [done | by repeat constructor | by repeat constructor | by right].
Defined.

(** ** Aborts and the located archive *)

Lemma calm_app t1 t2 : calm (t1 ++ t2) ↔ calm t1 ∧ calm t2.
Proof. apply Forall_app. Qed.

Lemma calm_no_error t m : calm t → is_error m = true → Print m ∉ t.
Proof.
  intros Hc Hm Hin. unfold calm in Hc. rewrite Forall_forall in Hc.
  specialize (Hc _ Hin m eq_refl). congruence.
Qed.

Lemma locate_calm w input t r :
  locate w input = (t, Ok (Some r)) → calm t.
Proof.
  rewrite locate_cases.
  repeat (match goal with
          | |- context [if ?b then _ else _] => destruct b
          | |- context [match ?o with Some _ => _ | None => _ end] => destruct o
          end); intros [= <- _]; repeat constructor; by intros m [= <-].
Qed.

Lemma extract_log_output_calm w path t log_lines :
  extract_log_output w path = (t, Ok log_lines) → log_lines ≠ [] → calm t.
Proof.
  unfold extract_log_output. destruct (w_log_show w path); simpl.
  - intros [= <- _] _. repeat constructor. by intros m [= <-].
  - by intros [= _ <-].
  - done.
Qed.

Lemma parse_time_ok_trace w t d : (parse_time w t).2 = Ok d → (parse_time w t).1 = [].
Proof.
  unfold parse_time. destruct (w_dateutil w) as [parse|].
  - by destruct (parse t).
  - by destruct (w_strptime w (before_plus t)).
Qed.

(** A time to live that is computed is computed without a message. *)
Lemma compute_ttl_ok_trace w s e t ttl : compute_ttl w s e = (t, Ok ttl) → t = [].
Proof.
  intros H. pose proof (f_equal fst H) as Ht. pose proof (f_equal snd H) as Hr.
  simpl in Ht, Hr. subst t. clear H. revert Hr.
  unfold compute_ttl, first_token_or_raise, ttl_minutes.
  destruct (first_token e) as [etok|]; [|done]. rewrite !ret_bind.
  rewrite bind_result, bind_trace.
  destruct (parse_time w etok).2 as [de|] eqn:H1; [|done].
  rewrite (parse_time_ok_trace _ _ _ H1).
  destruct (first_token s) as [stok|]; [|done]. rewrite !ret_bind.
  rewrite bind_result, bind_trace.
  destruct (parse_time w stok).2 as [ds|] eqn:H2; [|done].
  rewrite (parse_time_ok_trace _ _ _ H2).
  destruct (datetime_sub de ds) as [micros|]; [|done].
  by destruct (total_seconds micros).
Qed.

Lemma cleanup_calm w temp_dir : calm (cleanup w temp_dir).1.
Proof.
  rewrite cleanup_trace. destruct temp_dir as [dir|]; [|constructor].
  destruct (bool_decide (dir = [])); [constructor|].
  destruct (bool_decide _); repeat constructor; by intros m [= <-].
Qed.

(** X9. No run ends silently, and no report comes with an error: a run of
    [main] that returns has either written the report, and then printed no
    error message, or written nothing, and then printed one. *)
Theorem X9_no_silent_abort float_repr (w : World) (input : str) :
  match (main float_repr w input).2 with
  | Ok _ =>
      (files_written (main float_repr w input).1 ≠ []
       ∧ ∀ m, is_error m = true → Print m ∉ (main float_repr w input).1)
      ∨ (files_written (main float_repr w input).1 = []
         ∧ ∃ m, is_error m = true ∧ Print m ∈ (main float_repr w input).1)
  | Raised _ => True
  end.
Proof.
  destruct (main_cases float_repr w input)
    as [(located & path & temp_dir & size_kb & rendered & log_lines & start_line
         & end_line & parsed & ttl & Hloc & Hout & Hrange & Httl & Hmain)
        | [Hq Hr]].
  - rewrite Hmain. simpl. left. split.
    + rewrite !files_written_app. simpl.
      intros H. apply app_eq_nil in H as [_ H]. apply app_eq_nil in H as [_ H].
      by apply app_eq_nil in H as [_ H].
    + intros m Hm. apply calm_no_error; [|done].
      destruct (get_time_range_digits _ _ _ Hrange) as (_ & _ & Hin & _).
      apply compute_ttl_ok_trace in Httl as ->.
      apply calm_app. split; [by eapply locate_calm|].
      apply calm_app. split.
      { eapply extract_log_output_calm; [done|]. intros ->.
        by apply elem_of_nil in Hin. }
      simpl. constructor; [done|]. constructor; [by intros ? [= <-]|].
      apply cleanup_calm.
  - destruct (main float_repr w input).2 as [[]|e]; [|done].
    right. split; [by apply quiet_files_written | done].
Qed.

Lemma endswith_app x b suf : endswith b suf = true → endswith (x ++ b) suf = true.
Proof.
  unfold endswith. intros [Hlen Heq]%andb_true_iff.
  apply Nat.leb_le in Hlen. apply bool_decide_eq_true in Heq.
  apply andb_true_iff. split.
  - apply Nat.leb_le. rewrite length_app. lia.
  - apply bool_decide_eq_true. rewrite length_app.
    rewrite drop_app_ge by lia.
    by replace (length x + length b - length suf - length x)%nat
      with (length b - length suf)%nat by lia.
Qed.

(** A joined path ends with its second part. *)
Lemma path_join_suffix a b : ∃ x, path_join a b = x ++ b.
Proof.
  unfold path_join. destruct b as [|c b].
  - destruct (_ || _); [by exists a | exists (a ++ lit "/"); by rewrite <- app_assoc].
  - destruct (decide (c = "/"%char)) as [->|Hc]; [by exists []|].
    assert (match c with "/"%char => c :: b | _ =>
              if bool_decide (a = []) || endswith a (lit "/") then a ++ c :: b
              else a ++ lit "/" ++ c :: b end
            = if bool_decide (a = []) || endswith a (lit "/") then a ++ c :: b
              else a ++ lit "/" ++ c :: b) as ->.
    { destruct c as [[] [] [] [] [] [] [] []]; done. }
    destruct (_ || _); [by exists a | exists (a ++ lit "/"); by rewrite <- app_assoc].
Qed.

Lemma find_logarchive_found w base p :
  find_logarchive_in_directory w base = Some p →
  endswith p (lit ".logarchive") = true
  ∧ w_isdir w (path_join p (lit "Persist")) = true.
Proof.
  intros (pre & root & d & post & _ & _ & Hd & ->)%find_in_walk_Some.
  unfold is_logarchive in Hd. apply andb_true_iff in Hd as [He Hp].
  split; [|done]. simpl in He.
  destruct (path_join_suffix root d) as [x ->]. by apply endswith_app.
Qed.

(** X10. The archive [main] goes on with is named like a logarchive.  It is
    the input itself, a directory that is not looked into, and then no
    temporary directory is in use; or it was found by the search, holds a
    directory [Persist], and the temporary directory is in use exactly when
    the search was made in an extracted [.tar.gz]. *)
Theorem X10_located_archive (w : World) (input p : str) (temp : option str)
    (t : list event) :
  locate w input = (t, Ok (Some (p, temp))) →
  endswith p (lit ".logarchive") = true
  ∧ p ≠ []
  ∧ ((endswith input (lit ".tar.gz") = false
      ∧ p = input ∧ temp = None ∧ w_isdir w input = true
      ∧ t = [Print (InfoDetected input)])
     ∨ (w_isdir w (path_join p (lit "Persist")) = true
        ∧ ∃ base,
            find_logarchive_in_directory w base = Some p
            ∧ ((endswith input (lit ".tar.gz") = true
                ∧ w_extract w input = Some base ∧ temp = Some base
                ∧ t = [Print (InfoExtracted base)])
               ∨ (endswith input (lit ".tar.gz") = false
                  ∧ base = input ∧ temp = None ∧ w_isdir w input = true
                  ∧ t = [])))).
Proof.
  rewrite locate_cases.
  destruct (endswith input (lit ".tar.gz")) eqn:Htar.
  - destruct (w_extract w input) as [base|] eqn:Hex; [|done].
    destruct (find_logarchive_in_directory w base) as [q|] eqn:Hfind; [|done].
    intros [= <- -> <-].
    destruct (find_logarchive_found _ _ _ Hfind) as [He Hp].
    split_and!; [done | by apply (endswith_nonempty _ (lit ".logarchive")) |].
    right. split; [done|]. exists base. split; [done|]. by left.
  - destruct (endswith input (lit ".logarchive") && w_isdir w input) eqn:Hdirect.
    + apply andb_true_iff in Hdirect as [He Hd]. intros [= <- -> <-].
      split_and!; [done | by apply (endswith_nonempty _ (lit ".logarchive")) |].
      by left.
    + destruct (w_isdir w input) eqn:Hd; [|done].
      destruct (find_logarchive_in_directory w input) as [q|] eqn:Hfind; [|done].
      intros [= <- -> <-].
      destruct (find_logarchive_found _ _ _ Hfind) as [He Hp].
      split_and!; [done | by apply (endswith_nonempty _ (lit ".logarchive")) |].
      right. split; [done|]. exists input. split; [done|]. by right.
Qed.

(** X10 on the sample bundle, where the search finds the sample logarchive
    in the extracted directory. *)
Lemma X10_located_archive_witness :
  locate demo_world_bundle (lit "/in/full.tar.gz")
  = ([Print (InfoExtracted (lit "/logs"))],
     Ok (Some (lit "/logs/system.logarchive", Some (lit "/logs"))))
  ∧ w_isdir demo_world_bundle
      (path_join (lit "/logs/system.logarchive") (lit "Persist")) = true.
Proof.
  assert (locate demo_world_bundle (lit "/in/full.tar.gz")
          = ([Print (InfoExtracted (lit "/logs"))],
             Ok (Some (lit "/logs/system.logarchive", Some (lit "/logs")))))
    as Hloc by (by vm_compute).
  split; [exact Hloc|].
  destruct (X10_located_archive _ _ _ _ _ Hloc) as (_ & _ & [H | [Hp _]]);
    [|exact Hp].
  by destruct H as (H & _).
Defined.

(** ** The rendered lines *)




(** A text of lines that each end with a line feed splits into them. *)
Lemma splitlines_from_lf l : ∀ cur rest,
  Forall (λ c, is_linebreak c = false) l →
  splitlines_from cur (l ++ lf :: rest)
  = (reverse cur ++ l) :: splitlines_from [] rest.
Proof.
  induction l as [|c l IH]; intros cur rest Hl.
  - rewrite app_nil_r. simpl. by destruct rest.
  - apply Forall_cons in Hl as [Hc Hl]. simpl. rewrite Hc.
    rewrite IH by done. by rewrite reverse_cons, <- app_assoc.
Qed.

Lemma splitlines_lf_lines ls :
  Forall (Forall (λ c, is_linebreak c = false)) ls →
  splitlines (concat ((λ l, l ++ [lf]) <$> ls)) = ls.
Proof.
  unfold splitlines. induction 1 as [|l ls Hl _ IH]; [done|].
  csimpl. rewrite <- app_assoc. simpl.
  by rewrite splitlines_from_lf, IH.
Qed.


(** X12. A text in which every line ends with a line feed is returned line
    by line, without the line feeds: the lines of the analysis are those of
    the tool. *)
Theorem X12_lines_round_trip (w : World) (path : str) (ls : list str) :
  Forall (Forall (λ c, is_linebreak c = false)) ls →
  w_log_show w path = Completed (concat ((λ l, l ++ [lf]) <$> ls)) →
  extract_log_output w path = ([Print (InfoExtracting path)], Ok ls).
Proof.
  intros Hls Hshow. unfold extract_log_output. rewrite Hshow.
  by rewrite splitlines_lf_lines.
Qed.

(** X12 on the sample logarchive, which renders three lines. *)
Lemma X12_lines_round_trip_witness :
  extract_log_output demo_world (lit "/logs/system.logarchive")
  = ([Print (InfoExtracting (lit "/logs/system.logarchive"))],
     Ok [sample_first_line; lit "    continued [B] text"; sample_last_line]).
Proof.
  apply (X12_lines_round_trip demo_world (lit "/logs/system.logarchive")
           [sample_first_line; lit "    continued [B] text"; sample_last_line]).
  - repeat constructor.
  - by vm_compute.
Defined.

(** ** The size of the archive *)

Lemma add_files_size_sum w dirpath filenames total :
  add_files_size w dirpath filenames total
  = total + sum_Z (file_size w <$> map (λ f, (dirpath, f)) filenames).
Proof.
  unfold add_files_size. revert total.
  induction filenames as [|f fs IH]; intros total; simpl; [lia|].
  rewrite IH. unfold file_size at 2. simpl. unfold fmap.
  destruct (w_isfile w (path_join dirpath f)); lia.
Qed.

Lemma sum_Z_app l1 l2 : sum_Z (l1 ++ l2) = sum_Z l1 + sum_Z l2.
Proof. unfold sum_Z. induction l1 as [|x l1 IH]; simpl; lia. Qed.

Lemma total_size_from w walk total :
  fold_left (λ total '(dirpath, _, filenames),
               add_files_size w dirpath filenames total) walk total
  = total + sum_Z (file_size w <$> walk_files walk).
Proof.
  revert total. induction walk as [|[[dirpath dirnames] filenames] walk IH];
    intros total; simpl; [lia|].
  rewrite IH, add_files_size_sum, fmap_app, sum_Z_app. lia.
Qed.

Lemma total_size_sum w path :
  total_size w path = sum_Z (file_size w <$> walk_files (w_walk w path)).
Proof. unfold total_size. by rewrite total_size_from. Qed.

Lemma sum_Z_perm l1 l2 : l1 ≡ₚ l2 → sum_Z l1 = sum_Z l2.
Proof. unfold sum_Z. induction 1; simpl; lia. Qed.

Lemma sum_Z_zero l : Forall (λ x, x = 0) l → sum_Z l = 0.
Proof. unfold sum_Z. induction 1; simpl; lia. Qed.

(** X13. The size [get_dir_size_kb] rounds is the sum, over the files of
    the walk, of the sizes of those that are regular files.  So the order
    of the walk does not matter, a tree without a regular file measures
    0.0, and the function prints nothing and can raise only on a total too
    large for a float. *)
Theorem X13_dir_size (w : World) (path : str) :
  total_size w path = sum_Z (file_size w <$> walk_files (w_walk w path))
  ∧ (∀ path', walk_files (w_walk w path') ≡ₚ walk_files (w_walk w path) →
              get_dir_size_kb w path' = get_dir_size_kb w path)
  ∧ (Forall (λ df, w_isfile w (path_join df.1 df.2) = false)
            (walk_files (w_walk w path)) →
     get_dir_size_kb w path = ([], Ok (S754_zero false)))
  ∧ (get_dir_size_kb w path).1 = []
  ∧ (∀ e, (get_dir_size_kb w path).2 = Raised e → e = OverflowError).
Proof.
  split_and!.
  - apply total_size_sum.
  - intros path' Hperm. unfold get_dir_size_kb.
    rewrite !total_size_sum. by rewrite (sum_Z_perm _ _ (fmap_Permutation _ _ _ Hperm)).
  - intros Hnone. unfold get_dir_size_kb. rewrite total_size_sum, sum_Z_zero; [done|].
    apply Forall_fmap. eapply Forall_impl; [exact Hnone|].
    intros df Hdf. unfold file_size. simpl. by rewrite Hdf.
  - apply get_dir_size_kb_silent.
  - intros e. unfold get_dir_size_kb.
    destruct (int_truediv _ _); simpl; congruence.
Qed.

(** ** Timestamps *)




(** X15. Lines with the same first word have a time to live of zero: when
    the first and the last line agree on their first word, whatever follows
    it, [main]'s computation gives 0.0 minutes, or the word is not parsed,
    or the line is blank. *)
Theorem X15_same_first_word_ttl (w : World) (start_line end_line : str) :
  first_token start_line = first_token end_line →
  match (compute_ttl w start_line end_line).2 with
  | Ok ttl => ttl = S754_zero false
  | Raised e =>
      (first_token end_line = None ∧ e = IndexError)
      ∨ (∃ tok, first_token end_line = Some tok ∧ e = ParseError tok)
  end.
Proof.
  intros Htok. unfold compute_ttl, first_token_or_raise. rewrite Htok.
  destruct (first_token end_line) as [tok|]; [|by left].
  rewrite !ret_bind, bind_result.
  pose proof (parse_time_outcome w tok) as [_ Hr].
  destruct (parse_time w tok).2 as [d|e] eqn:Hp; [|right; eauto].
  rewrite ret_bind, bind_result, Hp. by rewrite ttl_minutes_self.
Qed.

(** X15 on the sample lines, ninety minutes apart on the same day. *)
Lemma X15_same_first_word_ttl_witness :
  (compute_ttl demo_world sample_first_line sample_last_line).2
  = Ok (S754_zero false).
Proof.
  pose proof (X15_same_first_word_ttl demo_world sample_first_line
                sample_last_line eq_refl) as H.
  destruct (compute_ttl demo_world sample_first_line sample_last_line).2
    as [ttl|e] eqn:Hr.
  - by rewrite H.
  - by vm_compute in Hr.
Defined.

(** ** Two logs, one after the other *)

Lemma List_last_indep {A} (l : list A) x d d' :
  List.last (x :: l) d = List.last (x :: l) d'.
Proof.
  revert x. induction l as [|y l IH]; intros x; [done|].
  change (List.last (y :: l) d = List.last (y :: l) d'). apply IH.
Qed.

Lemma List_last_app {A} (l : list A) x r d :
  List.last (l ++ x :: r) d = List.last (x :: r) d.
Proof.
  induction l as [|y l IH]; [done|].
  destruct l as [|z l]; [done|]. exact IH.
Qed.

Lemma label_count_app a b k :
  label_count (a ++ b) k = label_count a k + label_count b k.
Proof. unfold label_count. rewrite filter_app, length_app. lia. Qed.

(** X16. The analysis of two logs put one after the other, from those of
    the two: the line counts add up, the counts of every label add up (a
    missing label counting for zero), the labels of the first log come
    first and those new in the second follow in their order, and the time
    range runs from the first stamped line of the first log that has one
    to the last stamped line of the last log that has one. *)
Theorem X16_logs_in_sequence (a b : list str) :
  count_lines (a ++ b) = count_lines a + count_lines b
  ∧ (∀ k, default 0 (dict_get (count_subsystems (a ++ b)) k)
          = default 0 (dict_get (count_subsystems a) k)
            + default 0 (dict_get (count_subsystems b) k))
  ∧ keys (count_subsystems (a ++ b))
    = keys (count_subsystems a)
      ++ filter (λ k, k ∉ keys (count_subsystems a)) (keys (count_subsystems b))
  ∧ get_time_range (a ++ b)
    = (match (get_time_range a).1 with
       | Some first => Some first
       | None => (get_time_range b).1
       end,
       match (get_time_range b).2 with
       | Some last_ => Some last_
       | None => (get_time_range a).2
       end).
Proof.
  split_and!.
  - unfold count_lines. rewrite filter_app, length_app. lia.
  - intros k. unfold count_subsystems. rewrite !count_subsystems_from. simpl.
    rewrite label_count_app.
    pose proof (label_count_nonneg a k). pose proof (label_count_nonneg b k).
    repeat case_match; simpl; lia.
  - unfold count_subsystems at 1. rewrite fold_left_app.
    fold (count_subsystems a). rewrite count_subsystems_keys_from.
    by rewrite (count_subsystems_keys b).
  - unfold get_time_range. rewrite filter_app.
    destruct (filter _ a) as [|x fa]; destruct (filter _ b) as [|y fb]; simpl.
    + done.
    + done.
    + by rewrite app_nil_r.
    + f_equal. f_equal.
      change (List.last ((x :: fa) ++ y :: fb) x = List.last (y :: fb) y).
      rewrite List_last_app. apply List_last_indep.
Qed.
